(** * Verification of the xtask workspace tool (fast/template)

    Shallow embedding of [xtask/src/main.rs] (and of the sibling
    [xtask/src/bootstrap.rs] where the two differ): the project-name and
    account validators, the file substitution [replace_in_file], the
    bootstrap orchestrator with its file-system effects, and the [lint]
    sub-command with its external processes.

    Rust strings are sequences of Unicode scalar values; we model a [&str]
    as a [list Z] of code points. *)

From Stdlib Require Import ZArith Ascii String.
From stdpp Require Import base list gmap strings.

Open Scope Z_scope.

(** ** Text *)

Abbreviation text := (list Z) (only parsing).

(** A Rust string literal (all literals of the tool are ASCII). *)
Definition str (s : string) : text :=
  map (fun a => Z.of_nat (nat_of_ascii a)) (list_ascii_of_string s).

(** Rust's [Result]. *)
Inductive result (A E : Type) : Type :=
| Ok (a : A)
| Err (e : E).
Arguments Ok {A E} a.
Arguments Err {A E} e.

(** [char::is_whitespace]: [' '], ['\x09'..='\x0d'], and above ASCII the
    Unicode [White_Space] property. *)
Definition is_whitespace (c : Z) : bool :=
  (c =? 32) || ((9 <=? c) && (c <=? 13)) ||
  ((127 <? c) &&
   ((c =? 133) || (c =? 160) || (c =? 5760) ||
    ((8192 <=? c) && (c <=? 8202)) ||
    (c =? 8232) || (c =? 8233) || (c =? 8239) || (c =? 8287) ||
    (c =? 12288))).

Definition is_ascii_digit (c : Z) : bool := (48 <=? c) && (c <=? 57).
Definition is_ascii_alphabetic (c : Z) : bool :=
  ((65 <=? c) && (c <=? 90)) || ((97 <=? c) && (c <=? 122)).
Definition is_ascii_alphanumeric (c : Z) : bool :=
  is_ascii_digit c || is_ascii_alphabetic c.

(** [str::trim_start]: drop leading whitespace. *)
Fixpoint trim_start (s : text) : text :=
  match s with
  | [] => []
  | c :: r => if is_whitespace c then trim_start r else s
  end.

(** [str::trim_end]: drop trailing whitespace. *)
Definition trim_end (s : text) : text := rev (trim_start (rev s)).

(** [str::trim]. *)
Definition trim (s : text) : text := trim_end (trim_start s).

Definition is_empty (s : text) : bool :=
  match s with [] => true | _ => false end.

(** ** Validators (main.rs lines 238-276; bootstrap.rs lines 130-168) *)

(** The error strings of the validators, one constructor per [format!]. *)
Inductive input_error :=
| EmptyName                 (* "project name cannot be empty" *)
| StartsWithDigit (c : Z)   (* "the name cannot start with a digit: '{ch}'" *)
| BadFirstChar (c : Z)      (* "the first character must be a letter or `_`, found: '{ch}'" *)
| InvalidChar (c : Z)       (* "invalid character '{ch}': only letters, numbers, `-`, or `_` are allowed" *)
| EmptyAccount.             (* "GitHub account name cannot be empty" *)

(** The condition of the [for ch in chars] loop. *)
Definition valid_rest_char (ch : Z) : bool :=
  is_ascii_alphanumeric ch || (ch =? 45) || (ch =? 95).

(** The [for ch in chars] loop: the first offending character is reported. *)
Fixpoint check_rest (chars : list Z) : result unit input_error :=
  match chars with
  | [] => Ok tt
  | ch :: r => if valid_rest_char ch then check_rest r else Err (InvalidChar ch)
  end.

Definition parse_project_name (name : text) : result text input_error :=
  let name := trim name in
  if is_empty name then Err EmptyName else
  let first :=
    match name with
    | [] => Ok []
    | ch :: chars =>
        if is_ascii_digit ch then Err (StartsWithDigit ch)
        else if negb (is_ascii_alphabetic ch || (ch =? 95)) then Err (BadFirstChar ch)
        else Ok chars
    end in
  match first with
  | Err e => Err e
  | Ok chars =>
      match check_rest chars with
      | Err e => Err e
      | Ok _ => Ok name
      end
  end.

(** main.rs [parse_github_account]; bootstrap.rs [parse_github_username] is
    the same function. *)
Definition parse_github_account (account_name : text) : result text input_error :=
  let account_name := trim account_name in
  if is_empty account_name then Err EmptyAccount else Ok account_name.

(** Reference reading of the regular expression [[A-Za-z_][A-Za-z0-9_-]*]
    (spec side, used to state the validator's contract). *)
Definition ident_match (t : text) : bool :=
  match t with
  | [] => false
  | c :: r => (is_ascii_alphabetic c || (c =? 95)) && forallb valid_rest_char r
  end.

(** A value is a fixpoint of trimming, non-empty, with no whitespace at
    either end. *)
Definition trim_fixed (v : text) : Prop :=
  v <> [] /\ trim v = v /\
  (forall c r, v = c :: r -> is_whitespace c = false) /\
  (forall c r, v = r ++ [c] -> is_whitespace c = false).

(** ** Substring search and replacement (Rust's [str::contains] and
    [str::replace] with a [&str] pattern) *)

Fixpoint is_prefix (p s : text) : bool :=
  match p, s with
  | [], _ => true
  | a :: p', b :: s' => (a =? b) && is_prefix p' s'
  | _ :: _, [] => false
  end.

(** [s.contains(pat)]: some suffix of [s] (the empty one included) starts
    with [pat]; the empty pattern is contained in every string. *)
Fixpoint contains (s pat : text) : bool :=
  is_prefix pat s ||
  match s with
  | [] => false
  | _ :: s' => contains s' pat
  end.

(** The searcher of a non-empty pattern: leftmost matches, scanning resumes
    after the end of each match (non-overlapping).  [fuel] bounds the
    length of [s]. *)
Fixpoint replace_go (fuel : nat) (s from to : text) : text :=
  match fuel with
  | O => s
  | S fuel' =>
      match s with
      | [] => []
      | c :: s' =>
          if is_prefix from s
          then to ++ replace_go fuel' (drop (length from) s) from to
          else c :: replace_go fuel' s' from to
      end
  end.

(** [s.replace(from, to)]: the empty pattern matches at every char
    boundary: replacing the empty pattern by [X] in [ab] gives [XaXbX]. *)
Definition str_replace (s from to : text) : text :=
  match from with
  | [] => to ++ flat_map (fun c => c :: to) s
  | _ :: _ => replace_go (length s) s from to
  end.

(** ** File system *)

(** A path is its list of components, relative to the workspace root (the
    working directory of main.rs, [CARGO_WORKSPACE_DIR] of bootstrap.rs). *)
Definition path := list text.

Inductive entry :=
| EFile (writable : bool) (contents : text)
| EDir.

(** Every entry by its full path; the entries of a directory [d] are the
    paths that extend [d]. *)
Definition fsys := gmap path entry.

(** The [io::ErrorKind]s the tool can meet. *)
Inductive io_error :=
| NotFound | IsADirectory | NotADirectory | DirectoryNotEmpty
| PermissionDenied | InvalidInput.

Definition path_exists (fs : fsys) (p : path) : bool :=
  match fs !! p with Some _ => true | None => false end.

Definition path_is_dir (fs : fsys) (p : path) : bool :=
  match fs !! p with Some EDir => true | _ => false end.

(** [std::fs::read_to_string]. *)
Definition fs_read (fs : fsys) (p : path) : result text io_error :=
  match fs !! p with
  | Some (EFile _ c) => Ok c
  | Some EDir => Err IsADirectory
  | None => Err NotFound
  end.

(** [std::fs::write]: create or truncate, then write the whole content. *)
Definition fs_write (fs : fsys) (p : path) (c : text) : result fsys io_error :=
  match fs !! p with
  | Some EDir => Err IsADirectory
  | Some (EFile false _) => Err PermissionDenied
  | Some (EFile true _) => Ok (<[p := EFile true c]> fs)
  | None =>
      if bool_decide (removelast p = []) || path_is_dir fs (removelast p)
      then Ok (<[p := EFile true c]> fs) else Err NotFound
  end.

(** [Some rest] when [k = pre ++ rest]. *)
Fixpoint path_strip (pre k : path) : option path :=
  match pre, k with
  | [], _ => Some k
  | a :: pre', b :: k' => if decide (a = b) then path_strip pre' k' else None
  | _ :: _, [] => None
  end.

Definition has_children (fs : fsys) (d : path) : bool :=
  existsb (fun kv => match path_strip d kv.1 with Some (_ :: _) => true | _ => false end)
    (map_to_list fs).

(** Move the directory [src] and everything below it to [dst]. *)
Definition move_tree (fs : fsys) (src dst : path) : fsys :=
  list_to_map
    (map (fun kv => (match path_strip src kv.1 with
                     | Some rest => dst ++ rest
                     | None => kv.1
                     end, kv.2))
       (map_to_list fs)).

(** [std::fs::rename], with the POSIX [rename(2)] semantics: a directory
    may replace an existing empty directory; a non-empty target directory
    gives [ENOTEMPTY]. *)
Definition fs_rename (fs : fsys) (src dst : path) : result fsys io_error :=
  match fs !! src with
  | None => Err NotFound
  | Some (EFile w c) =>
      match fs !! dst with
      | Some EDir => Err IsADirectory
      | _ => if decide (src = dst) then Ok fs
             else Ok (<[dst := EFile w c]> (delete src fs))
      end
  | Some EDir =>
      if decide (src = dst) then Ok fs else
      match path_strip src dst with
      | Some _ => Err InvalidInput
      | None =>
          match fs !! dst with
          | Some (EFile _ _) => Err NotADirectory
          | Some EDir =>
              if has_children fs dst then Err DirectoryNotEmpty
              else Ok (move_tree (delete dst fs) src dst)
          | None => Ok (move_tree fs src dst)
          end
      end
  end.

(** ** [replace_in_file] (main.rs lines 389-398; bootstrap.rs lines
    192-202, which differ only in the error type) *)
Definition replace_in_file (fs : fsys) (file : path) (old new : text)
  : result unit io_error * fsys :=
  match fs_read fs file with
  | Err e => (Err e, fs)
  | Ok content =>
      if negb (contains content old) then (Ok tt, fs) else
      let content := str_replace content old new in
      match fs_write fs file content with
      | Ok fs' => (Ok tt, fs')
      | Err e => (Err e, fs)
      end
  end.

(** Reference reading of "every non-overlapping occurrence of [old] is
    replaced by [new]" for a non-empty [old] (spec side): occurrences are
    taken from the left, the first one not preceded by an earlier
    occurrence, and the search resumes after it. *)
Inductive replaced (old new : text) : text -> text -> Prop :=
| rep_none s :
    contains s old = false -> replaced old new s s
| rep_first x y t :
    old <> [] ->
    (forall x1 x2, x = x1 ++ x2 -> x2 <> [] -> is_prefix old (x2 ++ old ++ y) = false) ->
    replaced old new y t ->
    replaced old new (x ++ old ++ y) (x ++ new ++ t).

(** ** The bootstrap sub-command (main.rs lines 278-461) *)

(** Task labels printed by [print_task]. *)
Inductive task :=
| TUpdating (file : path)   (* "Updating {file}..." *)
| TRenaming (name : text).  (* "Renaming \"template/\" directory to \"{name}/\" ..." *)

(** The error carried by a step's [Result]: an I/O error, or in
    bootstrap.rs the collision message "Directory '{name}' already exists". *)
Inductive step_error :=
| StepIo (e : io_error)
| DirExists (name : text).

Inductive root_error :=
| NotProjectRoot   (* "This command must be run from the project root directory" *)
| NoTemplateDir.   (* "The 'template' directory not found. ..." *)

(** What the tool prints, in order, on stdout or stderr. *)
Inductive msg :=
| MRootError (e : root_error)
| MTitle
| MPrompt (prompt : string)
| MInputError (e : input_error)
| MPreview (project_name github_account : text)
| MConfirmPrompt
| MStarting
| MCancelled
| MTask (t : task)
| MOk
| MError (e : step_error)
| MComplete (project_name : text).

(** The process state: the file system, the unread lines of stdin (each
    line terminated by a newline) and everything printed so far. *)
Record world := mkWorld { w_fs : fsys; w_stdin : list text; w_out : list msg }.

(** A computation of the tool; [None] when it never returns. *)
Definition io (A : Type) : Type := world -> option (A * world).

#[global] Instance io_ret : MRet io := fun A a w => Some (a, w).
#[global] Instance io_bind : MBind io := fun A B f m w =>
  match m w with Some (a, w') => f a w' | None => None end.

Definition print (m : msg) : io unit :=
  fun w => Some (tt, mkWorld (w_fs w) (w_stdin w) (w_out w ++ [m])).

Definition get_fs : io fsys := fun w => Some (w_fs w, w).

Definition modify_fs {A} (f : fsys -> A * fsys) : io A :=
  fun w => let (a, fs') := f (w_fs w) in Some (a, mkWorld fs' (w_stdin w) (w_out w)).

(** [stdin().read_line]: the next line with its newline, or nothing at the
    end of input. *)
Definition read_line : io text :=
  fun w => match w_stdin w with
           | [] => Some ([], w)
           | l :: r => Some (l ++ [10], mkWorld (w_fs w) r (w_out w))
           end.

Definition check_project_root (fs : fsys) : result unit root_error :=
  if negb (path_exists fs [str "Cargo.toml"]) || negb (path_is_dir fs [str "xtask"])
  then Err NotProjectRoot
  else if negb (path_is_dir fs [str "template"]) then Err NoTemplateDir
  else Ok tt.

Definition prompt_input (prompt : string) : io text :=
  print (MPrompt prompt);; input ← read_line; mret (trim input).

(** The [loop] of [get_valid_input].  Every round reads one line; once
    stdin is exhausted each round reads the same empty line, so after
    [length stdin + 1] failed rounds the loop never ends. *)
Fixpoint get_valid_input_fuel (n : nat) (prompt : string)
    (validator : text -> result text input_error) : io text :=
  match n with
  | O => fun _ => None
  | S n' =>
      input ← prompt_input prompt;
      match validator input with
      | Ok value => mret value
      | Err e => print (MInputError e);; get_valid_input_fuel n' prompt validator
      end
  end.

Definition get_valid_input (prompt : string)
    (validator : text -> result text input_error) : io text :=
  fun w => get_valid_input_fuel (S (length (w_stdin w))) prompt validator w.

Definition prepare_inputs (project_name github_account : option text) : io (text * text) :=
  project_name ←
    match project_name with
    | Some p => mret p
    | None => get_valid_input "Enter the new project name" parse_project_name
    end;
  github_account ←
    match github_account with
    | Some a => mret a
    | None => get_valid_input "Enter the GitHub username/org" parse_github_account
    end;
  mret (project_name, github_account).

(** [matches!(s, "y" | "yes")]. *)
Definition is_yes (s : text) : bool :=
  bool_decide (s = str "y") || bool_decide (s = str "yes").

Section Bootstrap.
(** Rust's [str::to_lowercase] (Unicode case tables of the standard
    library). *)
Variable to_lowercase : text -> text.

Definition confirm : io bool :=
  print MConfirmPrompt;;
  input ← read_line;
  mret (is_yes (to_lowercase (trim input))).

Definition preview_and_confirm (project_name github_account : text) : io (option unit) :=
  print (MPreview project_name github_account);;
  b ← confirm;
  if (b : bool) then (print MStarting;; mret (Some tt))
  else (print MCancelled;; mret None).
End Bootstrap.

Definition print_task (t : task) : io unit := print (MTask t).

Definition print_update_result (r : result unit step_error) : io unit :=
  match r with
  | Ok _ => print MOk
  | Err e => print (MError e)
  end.

(** [.map_err(|e| e.to_string())]. *)
Definition map_err_io (r : result unit io_error) : result unit step_error :=
  match r with Ok u => Ok u | Err e => Err (StepIo e) end.

(** [Result::and_then] on two file operations. *)
Definition and_then_file (r1 : result unit io_error * fsys)
    (k : fsys -> result unit io_error * fsys) : result unit io_error * fsys :=
  match r1 with
  | (Ok _, fs) => k fs
  | (Err e, fs) => (Err e, fs)
  end.

Definition cargo_toml : path := [str "Cargo.toml"].
Definition template_cargo_toml : path := [str "template"; str "Cargo.toml"].
Definition readme : path := [str "README.md"].
Definition semantic_yml : path := [str ".github"; str "semantic.yml"].
Definition cargo_lock : path := [str "Cargo.lock"].

(** The [result] computations of the six steps, with their effect on the
    file system. *)
Definition root_cargo_toml_op (project_name github_account : text) (fs : fsys)
  : result unit io_error * fsys :=
  and_then_file (replace_in_file fs cargo_toml (str "/fast") (str "/" ++ github_account))
    (fun fs => replace_in_file fs cargo_toml (str "template") project_name).

Definition project_cargo_toml_op (project_name : text) (fs : fsys)
  : result unit io_error * fsys :=
  replace_in_file fs template_cargo_toml (str "template") project_name.

Definition readme_op (project_name github_account : text) (fs : fsys)
  : result unit io_error * fsys :=
  and_then_file (replace_in_file fs readme (str "/fast") (str "/" ++ github_account))
    (fun fs => replace_in_file fs readme (str "/template") (str "/" ++ project_name)).

Definition semantic_yml_op (project_name github_account : text) (fs : fsys)
  : result unit io_error * fsys :=
  replace_in_file fs semantic_yml (str "/fast/template")
    (str "/" ++ github_account ++ str "/" ++ project_name).

Definition cargo_lock_op (project_name : text) (fs : fsys)
  : result unit io_error * fsys :=
  replace_in_file fs cargo_lock (str "template") project_name.

Definition project_dir_op (project_name : text) (fs : fsys)
  : result unit io_error * fsys :=
  match fs_rename fs [str "template"] [project_name] with
  | Ok fs' => (Ok tt, fs')
  | Err e => (Err e, fs)
  end.

Definition update_root_cargo_toml (project_name github_account : text) : io unit :=
  print_task (TUpdating cargo_toml);;
  r ← modify_fs (root_cargo_toml_op project_name github_account);
  print_update_result (map_err_io r).

Definition update_project_cargo_toml (project_name : text) : io unit :=
  print_task (TUpdating template_cargo_toml);;
  r ← modify_fs (project_cargo_toml_op project_name);
  print_update_result (map_err_io r).

Definition update_readme (project_name github_account : text) : io unit :=
  print_task (TUpdating readme);;
  r ← modify_fs (readme_op project_name github_account);
  print_update_result (map_err_io r).

Definition update_semantic_yml (project_name github_account : text) : io unit :=
  print_task (TUpdating semantic_yml);;
  r ← modify_fs (semantic_yml_op project_name github_account);
  print_update_result (map_err_io r).

Definition update_cargo_lock (project_name : text) : io unit :=
  print_task (TUpdating cargo_lock);;
  r ← modify_fs (cargo_lock_op project_name);
  print_update_result (map_err_io r).

Definition update_project_dir (project_name : text) : io unit :=
  print_task (TRenaming project_name);;
  r ← modify_fs (project_dir_op project_name);
  print_update_result (map_err_io r).

Definition execute_bootstrap (project_name github_account : text) : io unit :=
  update_root_cargo_toml project_name github_account;;
  update_project_cargo_toml project_name;;
  update_readme project_name github_account;;
  update_semantic_yml project_name github_account;;
  update_cargo_lock project_name;;
  update_project_dir project_name.

Definition bootstrap_project (to_lowercase : text -> text)
    (project_name github_account : option text) : io unit :=
  fs ← get_fs;
  match check_project_root fs with
  | Err e => print (MRootError e)
  | Ok _ =>
      print MTitle;;
      '(project_name, github_account) ← prepare_inputs project_name github_account;
      c ← preview_and_confirm to_lowercase project_name github_account;
      match c with
      | None => mret tt
      | Some _ =>
          execute_bootstrap project_name github_account;;
          print (MComplete project_name)
      end
  end.

(** [str::to_lowercase] on ASCII text (used to run examples; it agrees with
    Rust on every ASCII string). *)
Definition ascii_to_lowercase (s : text) : text :=
  map (fun c => if (65 <=? c) && (c <=? 90) then c + 32 else c) s.

(** The line [confirm] will read next, as [read_line] returns it. *)
Definition next_line (ins : list text) : text :=
  match ins with [] => [] | l :: _ => l ++ [10] end.

(** bootstrap.rs [update_project_dir] (lines 265-277), which checks the
    target path before renaming. *)
Module BootstrapRs.
Definition project_dir_op (project_name : text) (fs : fsys)
  : result unit step_error * fsys :=
  if path_exists fs [project_name] then (Err (DirExists project_name), fs)
  else match fs_rename fs [str "template"] [project_name] with
       | Ok fs' => (Ok tt, fs')
       | Err e => (Err (StepIo e), fs)
       end.

Definition update_project_dir (project_name : text) : io unit :=
  print_task (TRenaming project_name);;
  r ← modify_fs (project_dir_op project_name);
  print_update_result r.
End BootstrapRs.

(** Reference reading of a "naive simultaneous substitution" of several
    non-empty placeholders (spec side): one left-to-right scan, the first
    rule whose pattern starts at the current position wins, inserted text is
    never rescanned. *)
Fixpoint replace_simultaneous_go (fuel : nat) (s : text) (rules : list (text * text)) : text :=
  match fuel with
  | O => s
  | S fuel' =>
      match s with
      | [] => []
      | c :: s' =>
          match find (fun r => is_prefix r.1 s) rules with
          | Some (o, n) => n ++ replace_simultaneous_go fuel' (drop (length o) s) rules
          | None => c :: replace_simultaneous_go fuel' s' rules
          end
      end
  end.

Definition replace_simultaneous (s : text) (rules : list (text * text)) : text :=
  replace_simultaneous_go (length s) s rules.

(** The outcome line printed by [print_update_result] for a step whose
    operation returned [r]. *)
Definition outcome_msg (r : result unit io_error) : msg :=
  match r with Ok _ => MOk | Err e => MError (StepIo e) end.

(** An [[OK]] or [[ERROR]] line. *)
Definition is_outcome (m : msg) : Prop := m = MOk \/ exists e, m = MError e.

(** A workspace holding only a writable root manifest. *)
Definition manifest_only (c : text) : fsys := {[cargo_toml := EFile true c]}.

(** ** The lint sub-command (main.rs lines 109-229) *)

(** A [std::process::Command]: the program found on the search path and
    its arguments. *)
Record cmd := mkCmd { program : string; args : list string }.

Definition with_args (c : cmd) (l : list string) : cmd :=
  mkCmd (program c) (args c ++ l).

Fixpoint mem (s : string) (l : list string) : bool :=
  match l with [] => false | x :: l' => String.eqb s x || mem s l' end.

(** The programs on the search path, and every command run so far (each is
    printed with [println!("{cmd:?}")] before it runs). *)
Record lint_state := mkLint { installed : list string; log : list cmd }.

(** A computation of a task run; [None] when it panics, which ends the
    process with a failure status. *)
Definition lintM (A : Type) : Type := lint_state -> option A * lint_state.

#[global] Instance lint_ret : MRet lintM := fun A a st => (Some a, st).
#[global] Instance lint_bind : MBind lintM := fun A B f m st =>
  match m st with
  | (Some a, st') => f a st'
  | (None, st') => (None, st')
  end.

Section Lint.
(** Whether an external command exits with a success status. *)
Variable exit_ok : cmd -> bool.

(** [find_command]: [which::which], or [panic!("{cmd} not found")]. *)
Definition find_command (name : string) : lintM cmd :=
  fun st => if mem name (installed st) then (Some (mkCmd name []), st) else (None, st).

(** [run_command]: print, run, [assert!(status.success())]. *)
Definition run_command (c : cmd) : lintM unit :=
  fun st =>
    let st' := mkLint (installed st) (log st ++ [c]) in
    if exit_ok c then (Some tt, st') else (None, st').

(** The effect of a successful [cargo install]: the binary is on the
    search path. *)
Definition installed_bin (bin : string) : lintM unit :=
  fun st => (Some tt, mkLint (bin :: installed st) (log st)).

Definition ensure_installed (bin crate_name : string) : lintM unit :=
  fun st =>
    if mem bin (installed st) then (Some tt, st)
    else (c ← find_command "cargo";
          run_command (with_args c ["install"; crate_name]);;
          installed_bin bin) st.

Definition make_format_cmd (fix_ : bool) : lintM cmd :=
  c ← find_command "cargo";
  let c := with_args c ["fmt"; "--all"] in
  mret (if negb fix_ then with_args c ["--check"] else c).

Definition make_clippy_cmd (fix_ : bool) : lintM cmd :=
  c ← find_command "cargo";
  let c := with_args c ["clippy"; "--tests"; "--all-features"; "--all-targets"; "--workspace"] in
  mret (if fix_ then with_args c ["--allow-staged"; "--allow-dirty"; "--fix"]
        else with_args c ["--"; "-D"; "warnings"]).

Definition make_hawkeye_cmd (fix_ : bool) : lintM cmd :=
  ensure_installed "hawkeye" "hawkeye";;
  c ← find_command "hawkeye";
  mret (if fix_ then with_args c ["format"; "--fail-if-updated=false"]
        else with_args c ["check"]).

Definition make_typos_cmd : lintM cmd :=
  ensure_installed "typos" "typos-cli";;
  find_command "typos".

Definition make_taplo_cmd (fix_ : bool) : lintM cmd :=
  ensure_installed "taplo" "taplo-cli";;
  c ← find_command "taplo";
  mret (if fix_ then with_args c ["format"] else with_args c ["format"; "--check"]).

(** [CommandLint::run]. *)
Definition lint_run (fix_ : bool) : lintM unit :=
  c ← make_clippy_cmd fix_; run_command c;;
  c ← make_format_cmd fix_; run_command c;;
  c ← make_taplo_cmd fix_; run_command c;;
  c ← make_typos_cmd; run_command c;;
  c ← make_hawkeye_cmd fix_; run_command c.
End Lint.

(** The five checks of [lint], in the order of the spec: clippy, format,
    taplo, typos, hawkeye. *)
Definition lint_checks (fix_ : bool) : list cmd :=
  [mkCmd "cargo" (["clippy"; "--tests"; "--all-features"; "--all-targets"; "--workspace"] ++
                  if fix_ then ["--allow-staged"; "--allow-dirty"; "--fix"]
                  else ["--"; "-D"; "warnings"]);
   mkCmd "cargo" (["fmt"; "--all"] ++ if fix_ then [] else ["--check"]);
   mkCmd "taplo" (if fix_ then ["format"] else ["format"; "--check"]);
   mkCmd "typos" [];
   mkCmd "hawkeye" (if fix_ then ["format"; "--fail-if-updated=false"] else ["check"])].

(** The [cargo install] commands of [ensure_installed]. *)
Definition is_install (c : cmd) : bool :=
  match args c with a :: _ => String.eqb a "install" | [] => false end.

(** ** The build and test sub-commands (main.rs lines 64-100, 146-176) *)

Section BuildTest.
Variable exit_ok : cmd -> bool.

(** [make_build_cmd]. *)
Definition make_build_cmd (locked : bool) : lintM cmd :=
  c ← find_command "cargo";
  let c := with_args c ["build"; "--workspace"; "--all-features"; "--tests"; "--examples";
                        "--benches"; "--bins"] in
  mret (if locked then with_args c ["--locked"] else c).

(** [make_test_cmd]: [features.join(",")] is [String.concat]. *)
Definition make_test_cmd (no_capture default_features : bool) (features : list string)
  : lintM cmd :=
  c ← find_command "cargo";
  let c := with_args c ["test"; "--workspace"] in
  let c := if negb default_features then with_args c ["--no-default-features"] else c in
  let c := if negb (bool_decide (features = [])) then
             with_args c ["--features"; String.concat "," features] else c in
  mret (if no_capture then with_args c ["--"; "--nocapture"] else c).

(** [CommandBuild::run]. *)
Definition build_run (locked : bool) : lintM unit :=
  c ← make_build_cmd locked; run_command exit_ok c.

(** [CommandTest::run]. *)
Definition test_run (no_capture : bool) : lintM unit :=
  c ← make_test_cmd no_capture true []; run_command exit_ok c.
End BuildTest.

(** [cargo install {crate_name}], as [ensure_installed] runs it. *)
Definition install_cmd (crate_name : string) : cmd := mkCmd "cargo" ["install"; crate_name].

(** ** bootstrap.rs cleanup (lines 78-121) *)

Set Warnings "-register-all".

(** What the cleanup prints. *)
Inductive cleanup_msg :=
| MDeletingBootstrap      (* "Deleting bootstrap.rs..." *)
| MAlreadyDeleted         (* "bootstrap.rs already deleted" *)
| MDisablingFeature       (* "Disabling bootstrap feature..." *)
| MRemovingDeps.          (* "Removing unnecessary dependencies..." *)

(** [std::fs::remove_file] ([unlink(2)]: a directory gives [EISDIR]). *)
Definition fs_remove_file (fs : fsys) (p : path) : result fsys io_error :=
  match fs !! p with
  | Some (EFile _ _) => Ok (delete p fs)
  | Some EDir => Err IsADirectory
  | None => Err NotFound
  end.

(** [remove_bootstrap_file]; [None] when [.unwrap()] panics. *)
Definition remove_bootstrap_file (fs : fsys) (bootstrap_file : path)
  : option (list cleanup_msg * fsys) :=
  if path_exists fs bootstrap_file then
    match fs_remove_file fs bootstrap_file with
    | Ok fs' => Some ([MDeletingBootstrap], fs')
    | Err _ => None
    end
  else Some ([MAlreadyDeleted], fs).

(** A [toml_edit] document, as far as the cleanup looks at it: the decor
    (comments, whitespace) is left out, tables keep their key order. *)
Inductive toml_value :=
| VString (s : string)
| VArray (vs : list toml_value)
| VInlineTable (kvs : list (string * toml_value))
| VOther.   (* integers, floats, booleans, date-times *)

Inductive toml_item :=
| INone
| IValue (v : toml_value)
| ITable (t : list (string * toml_item))
| IArrayOfTables (ts : list (list (string * toml_item))).

(** [Table::get_mut]: the item of [key], unless it is [Item::None]. *)
Fixpoint table_get (t : list (string * toml_item)) (key : string) : option toml_item :=
  match t with
  | [] => None
  | (k, it) :: t' =>
      if String.eqb k key then match it with INone => None | _ => Some it end
      else table_get t' key
  end.

(** Writing an item through the reference [get_mut] returned. *)
Fixpoint table_set (t : list (string * toml_item)) (key : string) (it : toml_item)
  : list (string * toml_item) :=
  match t with
  | [] => []
  | (k, i) :: t' => if String.eqb k key then (k, it) :: t' else (k, i) :: table_set t' key it
  end.

(** [Table::remove]: [IndexMap::shift_remove], the other keys keep their
    order. *)
Fixpoint table_remove (t : list (string * toml_item)) (key : string)
  : list (string * toml_item) :=
  match t with
  | [] => []
  | (k, i) :: t' => if String.eqb k key then t' else (k, i) :: table_remove t' key
  end.

(** [Iterator::position]. *)
Fixpoint position {A} (f : A -> bool) (l : list A) : option nat :=
  match l with
  | [] => None
  | x :: l' => if f x then Some 0%nat else option_map S (position f l')
  end.

(** [Value::as_str]. *)
Definition as_str (v : toml_value) : option string :=
  match v with VString s => Some s | _ => None end.

(** [disable_bootstrap_feature]: [as_table_mut] only accepts a standard
    table ([[features]]), [as_array_mut] only an array value; [Vec::remove]
    is stdpp's [delete] on lists. *)
Definition disable_bootstrap_feature (doc : list (string * toml_item))
  : list (string * toml_item) * list cleanup_msg :=
  match table_get doc "features" with
  | Some (ITable features) =>
      let features' :=
        match table_get features "default" with
        | Some (IValue (VArray default)) =>
            match position (fun feature => bool_decide (as_str feature = Some "bootstrap"))
                    default with
            | Some idx => table_set features "default" (IValue (VArray (delete idx default)))
            | None => features
            end
        | _ => features
        end in
      (table_set doc "features" (ITable features'), [MDisablingFeature])
  | _ => (doc, [])
  end.

(** [remove_bootstrap_dependencies]. *)
Definition remove_bootstrap_dependencies (doc : list (string * toml_item))
  : list (string * toml_item) * list cleanup_msg :=
  match table_get doc "dependencies" with
  | Some (ITable dependencies) =>
      let dependencies := table_remove dependencies "toml_edit" in
      let dependencies := table_remove dependencies "colored" in
      let dependencies := table_remove dependencies "dialoguer" in
      (table_set doc "dependencies" (ITable dependencies), [MRemovingDeps])
  | _ => (doc, [])
  end.

(** * Proofs *)

Example parse_project_name_ex1 :
  parse_project_name (str "  myproject  ") = Ok (str "myproject").
Proof. reflexivity. Qed.
Example parse_project_name_ex2 :
  parse_project_name (str "my.project") = Err (InvalidChar 46).
Proof. reflexivity. Qed.
Example parse_project_name_ex3 :
  parse_project_name (str "123project") = Err (StartsWithDigit 49).
Proof. reflexivity. Qed.
Example parse_project_name_ex4 :
  parse_project_name [160; 95; 160] = Ok [95].
Proof. reflexivity. Qed.

Example str_replace_ex1 : str_replace (str "ab") [] (str "X") = str "XaXbX".
Proof. reflexivity. Qed.
Example str_replace_ex2 :
  str_replace (str "aaa") (str "aa") (str "b") = str "ba".
Proof. reflexivity. Qed.
Example str_replace_ex3 :
  str_replace (str "templatemplate") (str "template") (str "x") = str "xmplate".
Proof. reflexivity. Qed.

(** ** Trimming *)

Lemma trim_start_head s :
  trim_start s = [] \/ exists c r, trim_start s = c :: r /\ is_whitespace c = false.
Proof.
  induction s as [|a s IH]; simpl; [now left|].
  destruct (is_whitespace a) eqn:Ha; [exact IH|].
  right; eauto.
Qed.

Lemma trim_start_idem s : trim_start (trim_start s) = trim_start s.
Proof.
  destruct (trim_start_head s) as [E|(c & r & E & Hc)]; rewrite E; [done|].
  simpl; now rewrite Hc.
Qed.

Lemma trim_start_app_nonws l c m :
  is_whitespace c = false -> trim_start (l ++ c :: m) = trim_start l ++ c :: m.
Proof.
  intros Hc; induction l as [|a l IH]; simpl; [now rewrite Hc|].
  destruct (is_whitespace a); [exact IH|done].
Qed.

Lemma trim_end_cons c r :
  is_whitespace c = false -> exists r', trim_end (c :: r) = c :: r'.
Proof.
  intros Hc; unfold trim_end; simpl.
  rewrite trim_start_app_nonws by exact Hc.
  rewrite rev_app_distr; simpl; eauto.
Qed.

Lemma trim_end_idem y : trim_end (trim_end y) = trim_end y.
Proof. unfold trim_end; now rewrite rev_involutive, trim_start_idem. Qed.

Lemma trim_idem s : trim (trim s) = trim s.
Proof.
  unfold trim.
  destruct (trim_start_head s) as [E|(c & r & E & Hc)]; rewrite E; [done|].
  destruct (trim_end_cons c r Hc) as [r' E'].
  rewrite E'; simpl; rewrite Hc, <- E'.
  apply trim_end_idem.
Qed.

Lemma trim_head s c r : trim s = c :: r -> is_whitespace c = false.
Proof.
  unfold trim; destruct (trim_start_head s) as [E|(c' & r' & E & Hc)]; rewrite E.
  - done.
  - destruct (trim_end_cons c' r' Hc) as [r'' E']; rewrite E'.
    intros [= <- _]; exact Hc.
Qed.

Lemma trim_last s c r : trim s = r ++ [c] -> is_whitespace c = false.
Proof.
  unfold trim, trim_end.
  destruct (trim_start_head (rev (trim_start s))) as [E|(c' & r' & E & Hc)];
    rewrite E; simpl.
  - intros H; symmetry in H; apply app_eq_nil in H as [_ H]; discriminate.
  - intros H; apply app_inj_tail in H as [_ <-]; exact Hc.
Qed.

Lemma trim_fixed_trim s : trim s <> [] -> trim_fixed (trim s).
Proof.
  intros Hne; split; [exact Hne|]; split; [apply trim_idem|]; split.
  - intros c r; apply trim_head.
  - intros c r; apply trim_last.
Qed.

(** ** Validators *)

Ltac ascii_bool :=
  unfold is_ascii_digit, is_ascii_alphabetic, is_ascii_alphanumeric,
    valid_rest_char in *;
  repeat match goal with
  | |- context [Z.leb ?a ?b] => destruct (Z.leb_spec0 a b)
  | |- context [Z.eqb ?a ?b] => destruct (Z.eqb_spec a b)
  | H : context [Z.leb ?a ?b] |- _ => destruct (Z.leb_spec0 a b)
  | H : context [Z.eqb ?a ?b] |- _ => destruct (Z.eqb_spec a b)
  end; simpl in *; try lia; try congruence.

Lemma digit_not_first c :
  is_ascii_digit c = true -> (is_ascii_alphabetic c || (c =? 95)) = false.
Proof. ascii_bool. Qed.

Lemma check_rest_ok r : check_rest r = Ok tt <-> forallb valid_rest_char r = true.
Proof.
  induction r as [|a r IH]; simpl; [done|].
  destruct (valid_rest_char a); simpl; [exact IH|split; discriminate].
Qed.

Lemma check_rest_err_kind r e : check_rest r = Err e -> exists d, e = InvalidChar d.
Proof.
  induction r as [|a r IH]; simpl; [discriminate|].
  destruct (valid_rest_char a); [exact IH|intros [= <-]; eauto].
Qed.

Lemma check_rest_err r d :
  check_rest r = Err (InvalidChar d) <->
  exists r1 r2, r = r1 ++ d :: r2 /\ forallb valid_rest_char r1 = true /\
                valid_rest_char d = false.
Proof.
  induction r as [|a r IH]; simpl.
  - split; [discriminate|]. intros (r1 & r2 & E & _); destruct r1; discriminate.
  - destruct (valid_rest_char a) eqn:Ha.
    + rewrite IH; split.
      * intros (r1 & r2 & -> & H1 & H2); exists (a :: r1), r2; simpl; rewrite Ha; auto.
      * intros ([|b r1] & r2 & E & H1 & H2); simpl in *.
        -- injection E as -> ->; congruence.
        -- injection E as -> ->; apply andb_true_iff in H1 as [_ H1]; eauto.
    + split.
      * intros [= <-]; exists [], r; auto.
      * intros ([|b r1] & r2 & E & H1 & H2); simpl in *.
        -- now injection E as -> ->.
        -- injection E as -> ->; rewrite Ha in H1; discriminate.
Qed.

Lemma parse_project_name_ok s v :
  parse_project_name s = Ok v -> v = trim s /\ trim s <> [].
Proof.
  unfold parse_project_name; destruct (trim s) as [|c r]; simpl; [discriminate|].
  destruct (is_ascii_digit c); simpl; [discriminate|].
  destruct (is_ascii_alphabetic c || (c =? 95)); simpl; [|discriminate].
  destruct (check_rest r); [|discriminate]. intros [= <-]; done.
Qed.

Lemma parse_github_account_ok s v :
  parse_github_account s = Ok v -> v = trim s /\ trim s <> [].
Proof.
  unfold parse_github_account; destruct (trim s); simpl; [discriminate|].
  intros [= <-]; done.
Qed.

(** ** Substring search *)

Lemma is_prefix_app p y : is_prefix p (p ++ y) = true.
Proof. induction p; simpl; [done|]. now rewrite Z.eqb_refl. Qed.

Lemma is_prefix_true p s : is_prefix p s = true -> s = p ++ drop (length p) s.
Proof.
  revert s; induction p as [|a p IH]; intros [|b s]; simpl; try done.
  intros H; apply andb_true_iff in H as [H1 H2]; apply Z.eqb_eq in H1 as ->.
  f_equal; now apply IH.
Qed.

Lemma contains_prefix s p : is_prefix p s = true -> contains s p = true.
Proof. destruct s; simpl; intros ->; done. Qed.

Lemma contains_app x old y : contains (x ++ old ++ y) old = true.
Proof.
  induction x as [|a x IH]; simpl.
  - apply contains_prefix, is_prefix_app.
  - rewrite IH; apply orb_true_r.
Qed.

Lemma contains_nil s : contains s [] = true.
Proof. destruct s; done. Qed.

Lemma contains_refl s : contains s s = true.
Proof. pose proof (contains_app [] s []) as H; rewrite app_nil_r in H; exact H. Qed.

(** ** C1: the project-name validator *)

(** Claim C1: [parse_project_name] succeeds exactly when the trimmed input
    matches [[A-Za-z_][A-Za-z0-9_-]*], and then returns the trimmed input;
    otherwise it fails with the empty-name error (trimmed input empty), the
    starts-with-digit error (first character a digit), the bad-first-character
    error (first character neither a letter nor [_]), or the
    invalid-character error naming the first offending later character. *)
Theorem parse_project_name_contract (s : text) :
  (forall v, parse_project_name s = Ok v <-> ident_match (trim s) = true /\ v = trim s) /\
  (parse_project_name s = Err EmptyName <-> trim s = []) /\
  (forall c, parse_project_name s = Err (StartsWithDigit c) <->
     exists r, trim s = c :: r /\ is_ascii_digit c = true) /\
  (forall c, parse_project_name s = Err (BadFirstChar c) <->
     exists r, trim s = c :: r /\ is_ascii_digit c = false /\
               (is_ascii_alphabetic c || (c =? 95)) = false) /\
  (forall d, parse_project_name s = Err (InvalidChar d) <->
     exists c r1 r2, trim s = c :: r1 ++ d :: r2 /\
       (is_ascii_alphabetic c || (c =? 95)) = true /\
       forallb valid_rest_char r1 = true /\ valid_rest_char d = false) /\
  parse_project_name s <> Err EmptyAccount.
Proof.
  unfold parse_project_name; destruct (trim s) as [|c r] eqn:E; simpl.
  { split; [split; [discriminate|intros [[=] _]]|].
    split; [done|].
    split; [intros c; split; [discriminate|intros (r & [=] & _)]|].
    split; [intros c; split; [discriminate|intros (r & [=] & _)]|].
    split; [intros d; split; [discriminate|intros (c & r1 & r2 & [=] & _)]|].
    discriminate. }
  destruct (is_ascii_digit c) eqn:Hd; simpl.
  { pose proof (digit_not_first c Hd) as Hf.
    split; [intros v; rewrite Hf; split; [discriminate|intros [[=] _]]|].
    split; [split; discriminate|].
    split; [intros c'; split; [intros [= <-]; eauto|intros (r' & [= <- _] & _); done]|].
    split; [intros c'; split; [discriminate|intros (r' & [= <- _] & H & _); congruence]|].
    split; [intros d; split; [discriminate|intros (c' & r1 & r2 & [= <- _] & H & _); congruence]|].
    discriminate. }
  destruct (is_ascii_alphabetic c || (c =? 95)) eqn:Ha; simpl.
  2:{ split; [intros v; split; [discriminate|intros [[=] _]]|].
      split; [split; discriminate|].
      split; [intros c'; split; [discriminate|intros (r' & [= <- _] & H); congruence]|].
      split; [intros c'; split; [intros [= <-]; eauto|intros (r' & [= <- _] & _); done]|].
      split; [intros d; split; [discriminate|intros (c' & r1 & r2 & [= <- _] & H & _); congruence]|].
      discriminate. }
  destruct (check_rest r) as [[]|e] eqn:Hr.
  { apply check_rest_ok in Hr.
    split; [intros v; rewrite Hr; split; [intros [= <-]; done|intros [_ <-]; done]|].
    split; [split; discriminate|].
    split; [intros c'; split; [discriminate|intros (r' & [= <- _] & H); congruence]|].
    split; [intros c'; split; [discriminate|intros (r' & [= <- _] & _ & H); congruence]|].
    split; [|discriminate].
    intros d; split; [discriminate|].
    intros (c' & r1 & r2 & [= <- Er] & _ & H1 & H2).
    assert (check_rest r = Err (InvalidChar d)) as Hr'
      by (apply check_rest_err; eauto).
    apply check_rest_ok in Hr; congruence. }
  destruct (check_rest_err_kind r e Hr) as [d0 ->].
  split.
  { intros v; split; [discriminate|]. intros [Hm _].
    apply check_rest_ok in Hm; congruence. }
  split; [split; discriminate|].
  split; [intros c'; split; [discriminate|intros (r' & [= <- _] & H); congruence]|].
  split; [intros c'; split; [discriminate|intros (r' & [= <- _] & _ & H); congruence]|].
  split; [|discriminate].
  intros d; split.
  - intros [= <-]. apply check_rest_err in Hr as (r1 & r2 & -> & H1 & H2).
    exists c, r1, r2; auto.
  - intros (c' & r1 & r2 & [= <- Er] & _ & H1 & H2).
    assert (check_rest r = Err (InvalidChar d)) as Hr'
      by (apply check_rest_err; eauto).
    congruence.
Qed.

Lemma parse_project_name_contract_witness :
  parse_project_name (str " a-1 ") = Ok (str "a-1") <->
  ident_match (trim (str " a-1 ")) = true /\ str "a-1" = trim (str " a-1 ").
Proof. exact (proj1 (parse_project_name_contract (str " a-1 ")) (str "a-1")). Defined.

(** ** Replacement *)

Section Replace.
Variables old new : text.

Lemma replaced_cons c s t :
  is_prefix old (c :: s) = false ->
  replaced old new s t -> replaced old new (c :: s) (c :: t).
Proof.
  intros Hp H; revert Hp; destruct H as [s Hc|x y t Hne Hcond Hr]; intros Hp.
  - apply rep_none; simpl; now rewrite Hp, Hc.
  - apply (rep_first old new (c :: x) y t); [exact Hne| |exact Hr].
    intros [|a x1] x2 E Hx2; simpl in E.
    + subst x2; exact Hp.
    + injection E as -> E; now apply (Hcond x1 x2).
Qed.

Lemma replace_go_spec :
  old <> [] ->
  forall n s, (length s <= n)%nat -> replaced old new s (replace_go n s old new).
Proof.
  intros Hne n; induction n as [|n IH]; intros s Hl.
  - destruct s; simpl in Hl; [|lia].
    apply rep_none; destruct old; [congruence|reflexivity].
  - destruct s as [|c s']; simpl.
    + apply rep_none; destruct old; [congruence|reflexivity].
    + destruct (is_prefix old (c :: s')) eqn:Hp.
      * pose proof (is_prefix_true _ _ Hp) as Es.
        remember (drop (length old) (c :: s')) as y eqn:Ey.
        assert (length y <= n)%nat.
        { subst y; rewrite length_drop; simpl in *.
          destruct old; [congruence|simpl; lia]. }
        rewrite Es at 1.
        apply (rep_first old new [] y); [exact Hne| |now apply IH].
        intros x1 x2 Hx Hx2; symmetry in Hx; apply app_eq_nil in Hx as [_ ->]; done.
      * apply replaced_cons; [exact Hp|]. apply IH; simpl in Hl; lia.
Qed.

Lemma str_replace_spec s : old <> [] -> replaced old new s (str_replace s old new).
Proof.
  intros Hne; unfold str_replace; destruct old as [|a o] eqn:Eo; [congruence|].
  rewrite <- Eo; apply replace_go_spec; [congruence|lia].
Qed.

Lemma replaced_no_occurrence s t :
  contains s old = false -> replaced old new s t -> t = s.
Proof.
  intros Hc H; destruct H as [s _|x y t _ _ _]; [done|].
  now rewrite contains_app in Hc.
Qed.

Lemma str_replace_no_occurrence s :
  contains s old = false -> str_replace s old new = s.
Proof.
  intros Hc.
  assert (old <> []) as Hne by (intros ->; now rewrite contains_nil in Hc).
  exact (replaced_no_occurrence s _ Hc (str_replace_spec s Hne)).
Qed.

Lemma replaced_length_le s t :
  (length new <= length old)%nat -> replaced old new s t -> (length t <= length s)%nat.
Proof.
  intros Hl H; induction H as [s _|x y t _ _ _ IH]; [done|].
  rewrite !length_app; lia.
Qed.

Lemma replaced_length_ge s t :
  (length old <= length new)%nat -> replaced old new s t -> (length s <= length t)%nat.
Proof.
  intros Hl H; induction H as [s _|x y t _ _ _ IH]; [done|].
  rewrite !length_app; lia.
Qed.

Lemma replaced_changes s t :
  new <> old -> contains s old = true -> replaced old new s t -> t <> s.
Proof.
  intros Hno Hc H; destruct H as [s Hc'|x y t Hne _ Hr]; [congruence|].
  intros E; apply app_inv_head in E.
  destruct (Nat.lt_total (length new) (length old)) as [Hl|[Hl|Hl]].
  - pose proof (replaced_length_le y t ltac:(lia) Hr).
    apply (f_equal length) in E; rewrite !length_app in E; lia.
  - apply app_inj_1 in E as [E _]; [congruence|exact Hl].
  - pose proof (replaced_length_ge y t ltac:(lia) Hr).
    apply (f_equal length) in E; rewrite !length_app in E; lia.
Qed.
End Replace.

Lemma fs_write_ok fs p c fs' :
  fs_write fs p c = Ok fs' -> fs' = <[p := EFile true c]> fs.
Proof.
  unfold fs_write; destruct (fs !! p) as [[[] ?|]|]; try discriminate.
  - now intros [= <-].
  - destruct (_ || _); [now intros [= <-]|discriminate].
Qed.

(** ** C2: [replace_in_file] *)

(** Claim C2: after a failed read, [replace_in_file] returns the error and
    writes nothing; after a successful read of [content], it returns [Ok]
    without any write when [old] does not occur in [content], and otherwise
    writes the whole replaced content (every non-overlapping occurrence of
    [old], leftmost first, replaced by [new]) and returns the result of that
    write; a successful write leaves exactly that content in the file. *)
Theorem replace_in_file_contract (fs : fsys) (file : path) (old new : text) :
  match fs_read fs file with
  | Err e => replace_in_file fs file old new = (Err e, fs)
  | Ok content =>
      if contains content old then
        replace_in_file fs file old new =
          (match fs_write fs file (str_replace content old new) with
           | Ok fs' => (Ok tt, fs')
           | Err e => (Err e, fs)
           end) /\
        (old <> [] -> replaced old new content (str_replace content old new)) /\
        (forall fs', fs_write fs file (str_replace content old new) = Ok fs' ->
           fs' = <[file := EFile true (str_replace content old new)]> fs)
      else replace_in_file fs file old new = (Ok tt, fs)
  end.
Proof.
  unfold replace_in_file; destruct (fs_read fs file) as [content|e]; [|done].
  destruct (contains content old); simpl; [|done].
  split; [done|]; split.
  - apply str_replace_spec.
  - apply fs_write_ok.
Qed.

Lemma replace_in_file_contract_witness :
  fs_read (manifest_only (str "/fast")) cargo_toml = Ok (str "/fast") /\
  contains (str "/fast") (str "fast") = true /\
  (str "fast" <> [] -> replaced (str "fast") (str "x") (str "/fast")
                         (str_replace (str "/fast") (str "fast") (str "x"))).
Proof.
  split; [reflexivity|]; split; [reflexivity|].
  exact (proj1 (proj2 (replace_in_file_contract (manifest_only (str "/fast")) cargo_toml
                         (str "fast") (str "x")))).
Defined.

(** ** C3: applying the substitution twice *)

(** Claim C3 (amended): when [new] does not contain [old], substituting a
    second time leaves the content unchanged exactly when [old] does not
    occur in the content produced by the first substitution; in that case a
    second [replace_in_file] is a successful no-op. *)
Theorem substitute_twice (old new : text) (Hn : contains new old = false) :
  (forall c,
     str_replace (str_replace c old new) old new = str_replace c old new <->
     contains (str_replace c old new) old = false) /\
  (forall fs f fs1 c1,
     replace_in_file fs f old new = (Ok tt, fs1) ->
     fs_read fs1 f = Ok c1 -> contains c1 old = false ->
     replace_in_file fs1 f old new = (Ok tt, fs1)).
Proof.
  assert (old <> []) as Hne by (intros ->; now rewrite contains_nil in Hn).
  assert (new <> old) as Hno by (intros ->; now rewrite contains_refl in Hn).
  split.
  - intros c; split.
    + intros E. destruct (contains (str_replace c old new) old) eqn:Hc; [|done].
      exfalso; exact (replaced_changes old new _ _ Hno Hc (str_replace_spec old new _ Hne) E).
    + apply str_replace_no_occurrence.
  - intros fs f fs1 c1 _ Hr Hc. unfold replace_in_file; now rewrite Hr, Hc.
Qed.

Lemma substitute_twice_witness :
  contains (str "a") (str "ab") = false /\
  (str_replace (str_replace (str "abc") (str "ab") (str "a")) (str "ab") (str "a") =
   str_replace (str "abc") (str "ab") (str "a") <->
   contains (str_replace (str "abc") (str "ab") (str "a")) (str "ab") = false).
Proof.
  split; [reflexivity|].
  exact (proj1 (substitute_twice (str "ab") (str "a") eq_refl) (str "abc")).
Defined.

(** Claim C3 as stated fails: [new = a] does not contain [old = ab], yet on
    a file holding [abb] the first substitution gives [ab] and the second
    [a]: the occurrence straddles the inserted [new] and the following
    text. *)
Lemma substitute_twice_counterexample :
  let fs : fsys := {[ [str "f"] := EFile true (str "abb") ]} in
  let once := (replace_in_file fs [str "f"] (str "ab") (str "a")).2 in
  contains (str "a") (str "ab") = false /\
  once !! [str "f"] = Some (EFile true (str "ab")) /\
  (replace_in_file once [str "f"] (str "ab") (str "a")).2 !! [str "f"] =
    Some (EFile true (str "a")).
Proof. vm_compute. repeat split. Qed.

(** ** The bootstrap orchestrator *)

Lemma io_bind_some {A B} (m : io A) (k : A -> io B) w a w' :
  m w = Some (a, w') -> (m ≫= k) w = k a w'.
Proof. intros H; unfold mbind, io_bind; now rewrite H. Qed.

Lemma update_step_run t (op : fsys -> result unit io_error * fsys) w :
  (print_task t;; r ← modify_fs op; print_update_result (map_err_io r)) w =
  Some (tt, mkWorld (op (w_fs w)).2 (w_stdin w)
              (w_out w ++ [MTask t; outcome_msg (op (w_fs w)).1])).
Proof.
  unfold mbind, io_bind, print_task, print_update_result, map_err_io, print, modify_fs.
  simpl; destruct (op (w_fs w)) as [[u|e] fs']; simpl; rewrite <- app_assoc; reflexivity.
Qed.

Lemma outcome_msg_is_outcome r : is_outcome (outcome_msg r).
Proof. destruct r; [left|right; eexists]; reflexivity. Qed.

(** Claim C6: the six steps run in the fixed order root manifest, template
    manifest, README, semantic config, lock file, directory rename; each
    prints its task label followed by an [[OK]] or [[ERROR]] line, and each
    step's file operation is applied to the state the previous one left,
    whatever that step's outcome. *)
Theorem execute_bootstrap_sequence (p a : text) (w : world) :
  exists w' r1 r2 r3 r4 r5 r6,
    execute_bootstrap p a w = Some (tt, w') /\
    w_out w' = w_out w ++
      [MTask (TUpdating cargo_toml); r1;
       MTask (TUpdating template_cargo_toml); r2;
       MTask (TUpdating readme); r3;
       MTask (TUpdating semantic_yml); r4;
       MTask (TUpdating cargo_lock); r5;
       MTask (TRenaming p); r6] /\
    Forall is_outcome [r1; r2; r3; r4; r5; r6] /\
    w_fs w' =
      (project_dir_op p
        (cargo_lock_op p
          (semantic_yml_op p a
            (readme_op p a
              (project_cargo_toml_op p
                (root_cargo_toml_op p a (w_fs w)).2).2).2).2).2).2.
Proof.
  unfold execute_bootstrap.
  erewrite io_bind_some by apply update_step_run.
  erewrite io_bind_some by apply update_step_run.
  erewrite io_bind_some by apply update_step_run.
  erewrite io_bind_some by apply update_step_run.
  erewrite io_bind_some by apply update_step_run.
  unfold update_project_dir; rewrite update_step_run; simpl.
  eexists _, _, _, _, _, _, _; split; [reflexivity|]; simpl.
  split; [rewrite <- !app_assoc; reflexivity|].
  split; [repeat (constructor; [apply outcome_msg_is_outcome|]); constructor|reflexivity].
Qed.

(** ** C4: renaming onto an existing directory *)

Definition demo_workspace : fsys :=
  list_to_map [
    ([str "Cargo.toml"], EFile true (str "name=template"));
    ([str "xtask"], EDir);
    ([str "template"], EDir);
    ([str "template"; str "Cargo.toml"], EFile true (str "name=template"));
    ([str "demo"], EDir)].

(** Claim C4 fails in main.rs: with an empty directory [demo] already at
    the target path, [update_project_dir] reports [[OK]], the existing
    [demo] directory is replaced and [template] is gone. *)
Theorem update_project_dir_onto_empty_dir :
  match update_project_dir (str "demo") (mkWorld demo_workspace [] []) with
  | Some (_, w') =>
      w_out w' = [MTask (TRenaming (str "demo")); MOk] /\
      demo_workspace !! [str "demo"] = Some EDir /\
      w_fs w' !! [str "template"] = None /\
      w_fs w' !! [str "demo"; str "Cargo.toml"] = Some (EFile true (str "name=template"))
  | None => False
  end.
Proof. vm_compute. repeat split. Qed.

(** The sibling bootstrap.rs step does what the claim says: on an existing
    target it reports the collision and touches nothing. *)
Lemma bootstrap_rs_update_project_dir_collision (p : text) (w : world) :
  path_exists (w_fs w) [p] = true ->
  BootstrapRs.update_project_dir p w =
    Some (tt, mkWorld (w_fs w) (w_stdin w)
                (w_out w ++ [MTask (TRenaming p); MError (DirExists p)])).
Proof.
  intros H; unfold BootstrapRs.update_project_dir, BootstrapRs.project_dir_op.
  unfold mbind, io_bind, print_task, print_update_result, print, modify_fs; simpl.
  rewrite H; simpl; rewrite <- app_assoc; reflexivity.
Qed.

(** ** C5: the precondition check *)

(** Claim C5 (amended): when the working directory has no entry named
    [Cargo.toml], or no directory [xtask], or no directory [template],
    [bootstrap_project] prints the precondition error and returns: no file
    is touched and nothing is read from stdin. *)
Theorem bootstrap_precondition (to_lowercase : text -> text)
    (pn an : option text) (w : world) :
  path_exists (w_fs w) [str "Cargo.toml"] = false \/
  path_is_dir (w_fs w) [str "xtask"] = false \/
  path_is_dir (w_fs w) [str "template"] = false ->
  exists e, bootstrap_project to_lowercase pn an w =
            Some (tt, mkWorld (w_fs w) (w_stdin w) (w_out w ++ [MRootError e])).
Proof.
  intros H; unfold bootstrap_project.
  rewrite (io_bind_some get_fs _ w (w_fs w) w) by reflexivity.
  unfold check_project_root.
  destruct (path_exists (w_fs w) [str "Cargo.toml"]),
    (path_is_dir (w_fs w) [str "xtask"]),
    (path_is_dir (w_fs w) [str "template"]); simpl;
    first [eexists; reflexivity | exfalso; intuition congruence].
Qed.

Lemma bootstrap_precondition_witness :
  exists e, bootstrap_project ascii_to_lowercase None None (mkWorld ∅ [] []) =
            Some (tt, mkWorld ∅ [] ([] ++ [MRootError e])).
Proof.
  apply (bootstrap_precondition ascii_to_lowercase None None (mkWorld ∅ [] [])).
  left; reflexivity.
Defined.

Definition manifest_dir_workspace : fsys :=
  list_to_map [
    ([str "Cargo.toml"], EDir);
    ([str "xtask"], EDir);
    ([str "template"], EDir);
    ([str "README.md"], EFile true (str "github.com/fast/template"))].

(** Claim C5 as stated fails: a directory named [Cargo.toml] is not a
    manifest file, yet [Path::exists] accepts it, and the run goes on to
    rewrite README.md. *)
Lemma bootstrap_precondition_counterexample :
  manifest_dir_workspace !! [str "Cargo.toml"] = Some EDir /\
  match bootstrap_project ascii_to_lowercase None None
          (mkWorld manifest_dir_workspace [str "demo"; str "alice"; str "y"] []) with
  | Some (_, w') => w_fs w' !! readme = Some (EFile true (str "github.com/alice/demo"))
  | None => False
  end.
Proof. vm_compute. split; reflexivity. Qed.

(** ** C8: validated values are trimmed *)

Lemma get_valid_input_fuel_spec (P : text -> Prop) n prompt validator :
  (forall s v, validator s = Ok v -> P v) ->
  forall w v w', get_valid_input_fuel n prompt validator w = Some (v, w') ->
  P v /\ w_fs w' = w_fs w.
Proof.
  intros HV; induction n as [|n IH]; intros w v w' H; [discriminate|].
  simpl in H; unfold prompt_input, mbind, io_bind, print, read_line, mret, io_ret in H.
  simpl in H; destruct (w_stdin w) as [|l r]; simpl in H.
  - destruct (validator (trim [])) eqn:Hv.
    + injection H as <- <-; eauto.
    + apply IH in H as [? ->]; auto.
  - destruct (validator (trim (l ++ [10]))) eqn:Hv.
    + injection H as <- <-; eauto.
    + apply IH in H as [? ->]; auto.
Qed.

Lemma get_valid_input_spec (P : text -> Prop) prompt validator :
  (forall s v, validator s = Ok v -> P v) ->
  forall w v w', get_valid_input prompt validator w = Some (v, w') ->
  P v /\ w_fs w' = w_fs w.
Proof. intros HV w; apply get_valid_input_fuel_spec; exact HV. Qed.

Lemma parse_project_name_trim_fixed s v :
  parse_project_name s = Ok v -> trim_fixed v.
Proof. intros H; apply parse_project_name_ok in H as [-> ?]; now apply trim_fixed_trim. Qed.

Lemma parse_github_account_trim_fixed s v :
  parse_github_account s = Ok v -> trim_fixed v.
Proof. intros H; apply parse_github_account_ok in H as [-> ?]; now apply trim_fixed_trim. Qed.

(** Claim C8: every value returned by [parse_project_name],
    [parse_github_account], and [get_valid_input] run with either of them,
    is non-empty, has no leading or trailing whitespace, and is unchanged
    by [trim]. *)
Theorem validated_inputs_trimmed :
  (forall s v, parse_project_name s = Ok v -> trim_fixed v) /\
  (forall s v, parse_github_account s = Ok v -> trim_fixed v) /\
  (forall prompt w v w',
     get_valid_input prompt parse_project_name w = Some (v, w') -> trim_fixed v) /\
  (forall prompt w v w',
     get_valid_input prompt parse_github_account w = Some (v, w') -> trim_fixed v).
Proof.
  split; [exact parse_project_name_trim_fixed|].
  split; [exact parse_github_account_trim_fixed|].
  split; intros prompt w v w' H.
  - exact (proj1 (get_valid_input_spec _ _ _ parse_project_name_trim_fixed w v w' H)).
  - exact (proj1 (get_valid_input_spec _ _ _ parse_github_account_trim_fixed w v w' H)).
Qed.

Lemma validated_inputs_trimmed_witness :
  parse_project_name (str " ab ") = Ok (str "ab") /\ trim_fixed (str "ab").
Proof.
  split; [reflexivity|].
  apply (proj1 validated_inputs_trimmed (str " ab ")); reflexivity.
Defined.

(** ** C9: order of the root-manifest substitutions *)

Lemma replace_in_file_writable fs f c old new :
  fs !! f = Some (EFile true c) ->
  exists fs', replace_in_file fs f old new = (Ok tt, fs') /\
              fs' !! f = Some (EFile true (str_replace c old new)).
Proof.
  intros H; unfold replace_in_file, fs_read; rewrite H.
  destruct (contains c old) eqn:Hc; simpl.
  - unfold fs_write; rewrite H. eexists; split; [reflexivity|].
    apply lookup_insert_eq.
  - exists fs; split; [done|]. now rewrite str_replace_no_occurrence.
Qed.

(** Claim C9 (amended): on a writable root manifest the account
    substitution runs first and the [template] substitution runs on its
    output, so [template] inside the inserted account text is rewritten
    too; with account [my-template] and project [demo], [/fast] becomes
    [/my-demo], where the naive simultaneous substitution gives
    [/my-template]. *)
Theorem root_manifest_substitution_order (p a c : text) (fs : fsys) :
  fs !! cargo_toml = Some (EFile true c) ->
  (exists fs', root_cargo_toml_op p a fs = (Ok tt, fs') /\
     fs' !! cargo_toml =
       Some (EFile true (str_replace (str_replace c (str "/fast") (str "/" ++ a))
                           (str "template") p))) /\
  (root_cargo_toml_op (str "demo") (str "my-template")
     (manifest_only (str "/fast"))).2 !! cargo_toml =
     Some (EFile true (str "/my-demo")) /\
  replace_simultaneous (str "/fast")
    [(str "/fast", str "/my-template"); (str "template", str "demo")] = str "/my-template".
Proof.
  intros H; split; [|split; vm_compute; reflexivity].
  destruct (replace_in_file_writable fs cargo_toml c (str "/fast") (str "/" ++ a) H)
    as (fs1 & E1 & H1).
  destruct (replace_in_file_writable fs1 cargo_toml _ (str "template") p H1)
    as (fs2 & E2 & H2).
  exists fs2; split; [|exact H2].
  unfold root_cargo_toml_op; rewrite E1; exact E2.
Qed.

Lemma root_manifest_substitution_order_witness :
  (manifest_only (str "/fast")) !! cargo_toml = Some (EFile true (str "/fast")) /\
  exists fs', root_cargo_toml_op (str "x") (str "y")
                (manifest_only (str "/fast")) = (Ok tt, fs') /\
     fs' !! cargo_toml =
       Some (EFile true (str_replace (str_replace (str "/fast") (str "/fast") (str "/y"))
                           (str "template") (str "x"))).
Proof.
  split; [reflexivity|].
  apply (root_manifest_substitution_order (str "x") (str "y") (str "/fast")); reflexivity.
Defined.

(** Claim C9 as stated fails: with account [template] and the (valid)
    project name [template], the final content equals the naive
    simultaneous substitution. *)
Lemma root_manifest_substitution_order_counterexample :
  parse_project_name (str "template") = Ok (str "template") /\
  (root_cargo_toml_op (str "template") (str "template")
     (manifest_only (str "/fast"))).2 !! cargo_toml =
     Some (EFile true (replace_simultaneous (str "/fast")
            [(str "/fast", str "/template"); (str "template", str "template")])).
Proof. vm_compute. split; reflexivity. Qed.

(** ** C10: cancelling at the confirmation prompt *)

Lemma prepare_inputs_fs pn an w x w' :
  prepare_inputs pn an w = Some (x, w') -> w_fs w' = w_fs w.
Proof.
  assert (forall prompt validator w v w',
            get_valid_input prompt validator w = Some (v, w') -> w_fs w' = w_fs w) as G.
  { intros prompt validator w0 v w0' H.
    exact (proj2 (get_valid_input_spec (fun _ => True) prompt validator
                    (fun _ _ _ => I) w0 v w0' H)). }
  unfold prepare_inputs, mbind, io_bind, mret, io_ret.
  destruct pn as [p|]; destruct an as [a|]; simpl.
  - congruence.
  - destruct (get_valid_input _ _ w) as [[v w1]|] eqn:E; [|discriminate].
    intros [= _ <-]; eauto.
  - destruct (get_valid_input _ _ w) as [[v w1]|] eqn:E; [|discriminate].
    intros [= _ <-]; eauto.
  - destruct (get_valid_input _ _ w) as [[v w1]|] eqn:E; [|discriminate].
    destruct (get_valid_input _ _ w1) as [[v' w2]|] eqn:E'; [|discriminate].
    intros [= _ <-]; apply G in E, E'; congruence.
Qed.

(** Claim C10: when the precondition holds, the inputs have been collected,
    and the confirmation answer is not a yes, [bootstrap_project] prints
    [Cancelled.] as its last line and returns with the file system exactly
    as it found it. *)
Theorem bootstrap_cancel (to_lowercase : text -> text) (pn an : option text)
    (w w1 : world) (p a : text) :
  check_project_root (w_fs w) = Ok tt ->
  prepare_inputs pn an (mkWorld (w_fs w) (w_stdin w) (w_out w ++ [MTitle])) =
    Some ((p, a), w1) ->
  is_yes (to_lowercase (trim (next_line (w_stdin w1)))) = false ->
  exists w2, bootstrap_project to_lowercase pn an w = Some (tt, w2) /\
             w_fs w2 = w_fs w /\ last (w_out w2) = Some MCancelled.
Proof.
  intros Hc Hp Hy.
  pose proof (prepare_inputs_fs _ _ _ _ _ Hp) as Hfs; simpl in Hfs.
  unfold bootstrap_project.
  rewrite (io_bind_some get_fs _ w (w_fs w) w) by reflexivity.
  rewrite Hc.
  rewrite (io_bind_some (print MTitle) _ w tt
             (mkWorld (w_fs w) (w_stdin w) (w_out w ++ [MTitle]))) by reflexivity.
  rewrite (io_bind_some _ _ _ _ _ Hp); simpl.
  unfold preview_and_confirm, confirm, mbind, io_bind, print, read_line, mret, io_ret.
  simpl; unfold next_line in Hy.
  destruct (w_stdin w1) as [|l r]; simpl; rewrite Hy; simpl;
    eexists; (split; [reflexivity|]); simpl; split; try exact Hfs;
    rewrite last_app; reflexivity.
Qed.

Lemma bootstrap_cancel_witness :
  check_project_root demo_workspace = Ok tt /\
  prepare_inputs None None (mkWorld demo_workspace [str "demo"; str "alice"; str "n"] ([] ++ [MTitle])) =
    Some ((str "demo", str "alice"),
          mkWorld demo_workspace [str "n"]
            [MTitle; MPrompt "Enter the new project name"; MPrompt "Enter the GitHub username/org"]) /\
  is_yes (ascii_to_lowercase (trim (next_line [str "n"]))) = false /\
  exists w2, bootstrap_project ascii_to_lowercase None None
               (mkWorld demo_workspace [str "demo"; str "alice"; str "n"] []) = Some (tt, w2) /\
             w_fs w2 = demo_workspace /\ last (w_out w2) = Some MCancelled.
Proof.
  split; [vm_compute; reflexivity|].
  split; [vm_compute; reflexivity|].
  split; [vm_compute; reflexivity|].
  apply (bootstrap_cancel ascii_to_lowercase None None
           (mkWorld demo_workspace [str "demo"; str "alice"; str "n"] [])
           (mkWorld demo_workspace [str "n"]
              [MTitle; MPrompt "Enter the new project name"; MPrompt "Enter the GitHub username/org"])
           (str "demo") (str "alice")); vm_compute; reflexivity.
Defined.

(** ** C7: the lint checks fail fast *)

Ltac lint_cases :=
  repeat (simpl; match goal with
    | H : ?b = _ |- context [?b] => rewrite H
    | |- context [if ?b then _ else _] => destruct b eqn:?
    end).

Ltac lint_finish :=
  first
    [ exists 0%nat; lint_close | exists 1%nat; lint_close | exists 2%nat; lint_close
    | exists 3%nat; lint_close | exists 4%nat; lint_close | exists 5%nat; lint_close ]
with lint_close :=
  split; [lia|];
  split; [reflexivity|];
  split;
  [ intros i c Hi Hc;
    destruct i as [|[|[|[|[|i]]]]]; simpl in Hi;
    try (destruct i; discriminate); try discriminate;
    injection Hi as <-; first [split; reflexivity | congruence]
  | intros ?; first [reflexivity | discriminate] ].

(** Claim C7: [lint] runs its five checks clippy, format, taplo, typos,
    hawkeye in this order (the commands it runs, [cargo install] commands
    aside, are a prefix of that list); when one of them exits with a failure
    status the run panics right there, so no later check runs; a run that
    returns normally has run all five. *)
Theorem lint_fail_fast (exit_ok : cmd -> bool) (fix_ : bool) (inst : list string) :
  let '(r, st') := lint_run exit_ok fix_ (mkLint inst []) in
  exists k, (k <= 5)%nat /\
    List.filter (fun c => negb (is_install c)) (log st') = firstn k (lint_checks fix_) /\
    (forall i c, nth_error (firstn k (lint_checks fix_)) i = Some c ->
                 exit_ok c = false -> r = None /\ k = S i) /\
    (r = Some tt -> k = 5%nat).
Proof.
  cbv delta [lint_run make_clippy_cmd make_format_cmd make_taplo_cmd make_typos_cmd
             make_hawkeye_cmd ensure_installed find_command run_command installed_bin
             mbind lint_bind mret lint_ret with_args] beta iota zeta.
  destruct fix_; lint_cases; lint_finish.
Qed.

Lemma lint_fail_fast_witness :
  let '(r, st') := lint_run (fun c => negb (String.eqb (program c) "taplo")) false
                     (mkLint ["cargo"; "taplo"] []) in
  exists k, (k <= 5)%nat /\
    List.filter (fun c => negb (is_install c)) (log st') = firstn k (lint_checks false) /\
    (forall i c, nth_error (firstn k (lint_checks false)) i = Some c ->
                 negb (String.eqb (program c) "taplo") = false -> r = None /\ k = S i) /\
    (r = Some tt -> k = 5%nat).
Proof. exact (lint_fail_fast (fun c => negb (String.eqb (program c) "taplo")) false ["cargo"; "taplo"]). Defined.

(** ** Further properties of the xtask code *)

Lemma path_strip_app pre rest : path_strip pre (pre ++ rest) = Some rest.
Proof. induction pre as [|a pre IH]; simpl; [done|]. now rewrite decide_True. Qed.

Lemma path_strip_some pre k r : path_strip pre k = Some r -> k = pre ++ r.
Proof.
  revert k; induction pre as [|a pre IH]; intros [|b k]; simpl; try congruence.
  case_decide; [subst; intros H; f_equal; now apply IH|discriminate].
Qed.

Lemma move_tree_elem (fs : fsys) (src dst k : path) (v : entry) :
  (k, v) ∈ map (fun kv => (match path_strip src kv.1 with
                           | Some rest => dst ++ rest
                           | None => kv.1
                           end, kv.2)) (map_to_list fs) <->
  exists k0, fs !! k0 = Some v /\
    k = match path_strip src k0 with Some rest => dst ++ rest | None => k0 end.
Proof.
  rewrite list_elem_of_In, in_map_iff; split.
  - intros ([k0 v0] & E & Hin); simpl in E; injection E as <- <-.
    exists k0; split; [|done].
    apply elem_of_map_to_list, list_elem_of_In; exact Hin.
  - intros (k0 & Hk0 & ->); exists (k0, v); split; [done|].
    apply list_elem_of_In, elem_of_map_to_list; exact Hk0.
Qed.

Lemma move_tree_lookup fs src dst k k0 :
  (forall k1 v1, fs !! k1 = Some v1 ->
     match path_strip src k1 with Some rest => dst ++ rest | None => k1 end = k -> k1 = k0) ->
  match path_strip src k0 with Some rest => dst ++ rest | None => k0 end = k ->
  move_tree fs src dst !! k = fs !! k0.
Proof.
  intros Hu Hk; unfold move_tree.
  destruct (fs !! k0) as [v|] eqn:E.
  - apply elem_of_list_to_map_1'.
    + intros y Hy; apply move_tree_elem in Hy as (k1 & Hk1 & Ek).
      pose proof (Hu k1 y Hk1 (eq_sym Ek)) as ->; congruence.
    + apply move_tree_elem; eauto.
  - apply not_elem_of_list_to_map_1.
    intros Hin; apply list_elem_of_fmap in Hin as ([k' v'] & -> & Hin); simpl in *.
    apply move_tree_elem in Hin as (k1 & Hk1 & Ek).
    pose proof (Hu k1 v' Hk1 (eq_sym Ek)) as ->; congruence.
Qed.

Lemma move_tree_lookup_none fs src dst k :
  (forall k1 v1, fs !! k1 = Some v1 ->
     match path_strip src k1 with Some rest => dst ++ rest | None => k1 end <> k) ->
  move_tree fs src dst !! k = None.
Proof.
  intros Hn; unfold move_tree; apply not_elem_of_list_to_map_1.
  intros Hin; apply list_elem_of_fmap in Hin as ([k' v'] & -> & Hin); simpl in *.
  apply move_tree_elem in Hin as (k1 & Hk1 & Ek); exact (Hn k1 v' Hk1 (eq_sym Ek)).
Qed.

Lemma move_tree_frame fs src dst q :
  path_strip src q = None -> path_strip dst q = None ->
  move_tree fs src dst !! q = fs !! q.
Proof.
  intros Hs Hd; apply move_tree_lookup; [|now rewrite Hs].
  intros k1 v1 _; destruct (path_strip src k1) as [r|] eqn:E; [|done].
  intros <-; now rewrite path_strip_app in Hd.
Qed.

Lemma prefix_cases {A} (x y u v : list A) :
  x ++ u = y ++ v -> (exists m, y = x ++ m) \/ (exists m, x = y ++ m).
Proof.
  revert y; induction x as [|a x IH]; intros [|b y] E; simpl in *; eauto.
  injection E as -> E; destruct (IH y E) as [[m ->]|[m ->]]; eauto.
Qed.

Lemma move_tree_moved fs src dst rest :
  path_strip src dst = None -> (forall r, fs !! (dst ++ r) = None) ->
  move_tree fs src dst !! (dst ++ rest) = fs !! (src ++ rest).
Proof.
  intros Hsd Hd; apply move_tree_lookup; [|now rewrite path_strip_app].
  intros k1 v1 Hk1; destruct (path_strip src k1) as [r|] eqn:E.
  - intros Ek; apply app_inv_head in Ek as ->; now apply (path_strip_some src k1).
  - intros ->; now rewrite Hd in Hk1.
Qed.

Lemma move_tree_src fs src dst rest :
  path_strip src dst = None -> (forall r, fs !! (dst ++ r) = None) ->
  move_tree fs src dst !! (src ++ rest) = None.
Proof.
  intros Hsd Hd; apply move_tree_lookup_none.
  intros k1 v1 Hk1; destruct (path_strip src k1) as [r|] eqn:E.
  - apply path_strip_some in E as ->. intros Ek.
    destruct (prefix_cases _ _ _ _ Ek) as [[m ->]|[m ->]].
    + rewrite <- app_assoc, Hd in Hk1; discriminate.
    + now rewrite path_strip_app in Hsd.
  - intros ->; now rewrite path_strip_app in E.
Qed.

Lemma has_children_false fs d :
  has_children fs d = false <-> forall r, r <> [] -> fs !! (d ++ r) = None.
Proof.
  unfold has_children; split.
  - intros H r Hr; destruct (fs !! (d ++ r)) as [v|] eqn:E; [|done]; exfalso.
    assert (existsb (fun kv => match path_strip d kv.1 with Some (_ :: _) => true | _ => false end)
              (map_to_list fs) = true) as Ht; [|congruence].
    apply existsb_exists; exists (d ++ r, v); split.
    + apply list_elem_of_In, elem_of_map_to_list; exact E.
    + simpl; rewrite path_strip_app; destruct r; done.
  - intros H; apply not_true_is_false; intros Ht.
    apply existsb_exists in Ht as ([k v] & Hin & Hk); simpl in Hk.
    apply list_elem_of_In, elem_of_map_to_list in Hin.
    destruct (path_strip d k) as [[|x r]|] eqn:E; try discriminate.
    apply path_strip_some in E as ->; rewrite H in Hin; done.
Qed.

Lemma path_strip_self_none d q : path_strip d q = None -> q <> d.
Proof. intros H ->; rewrite <- (app_nil_r d) in H at 2; now rewrite path_strip_app in H. Qed.

Lemma fs_rename_frame fs src dst fs' q :
  fs_rename fs src dst = Ok fs' ->
  path_strip src q = None -> path_strip dst q = None -> fs' !! q = fs !! q.
Proof.
  intros H Hs Hd.
  pose proof (path_strip_self_none _ _ Hs) as Hqs.
  pose proof (path_strip_self_none _ _ Hd) as Hqd.
  unfold fs_rename in H; destruct (fs !! src) as [[w c|]|]; [| |discriminate].
  - destruct (fs !! dst) as [[]|]; try discriminate; case_decide;
      injection H as <-; try done.
      all: transitivity (delete src fs !! q); [apply lookup_insert_ne; congruence|apply lookup_delete_ne; congruence].
  - case_decide; [now injection H as <-|].
    destruct (path_strip src dst); [discriminate|].
    destruct (fs !! dst) as [[]|]; try discriminate.
    + destruct (has_children fs dst); [discriminate|]. injection H as <-.
      rewrite move_tree_frame by done. apply lookup_delete_ne; congruence.
    + injection H as <-. now apply move_tree_frame.
Qed.

Lemma fs_rename_dir fs src dst :
  fs !! src = Some EDir -> path_strip src dst = None ->
  (fs !! dst = None \/ fs !! dst = Some EDir) -> has_children fs dst = false ->
  exists fs', fs_rename fs src dst = Ok fs' /\
    (forall rest, fs' !! (dst ++ rest) = fs !! (src ++ rest)) /\
    (forall rest, fs' !! (src ++ rest) = None) /\
    (forall q, path_strip src q = None -> path_strip dst q = None -> fs' !! q = fs !! q).
Proof.
  intros Hsrc Hsd Hdst Hch.
  set (fs0 := match fs !! dst with Some _ => delete dst fs | None => fs end).
  assert (fs_rename fs src dst = Ok (move_tree fs0 src dst)) as E.
  { unfold fs_rename, fs0; rewrite Hsrc; rewrite decide_False.
    2:{ intros Ex; exact (path_strip_self_none _ _ Hsd (eq_sym Ex)). }
    rewrite Hsd; destruct Hdst as [-> | ->]; [done|now rewrite Hch]. }
  eexists; split; [exact E|].
  pose proof (proj1 (has_children_false fs dst) Hch) as Hch'; clear Hch; rename Hch' into Hch.
  assert (forall r, fs0 !! (dst ++ r) = None) as Hd.
  { intros r; unfold fs0; destruct r as [|x r].
    - rewrite app_nil_r; destruct Hdst as [E'|E']; rewrite E'; [exact E'|apply lookup_delete_eq].
    - assert (dst ++ x :: r <> dst) as Hne.
      { intros Hx; rewrite <- (app_nil_r dst) in Hx at 2; apply app_inv_head in Hx; done. }
      destruct (fs !! dst); [transitivity (fs !! (dst ++ x :: r)); [now apply lookup_delete_ne|]|];
        apply Hch; done. }
  assert (forall k, k <> dst -> fs0 !! k = fs !! k) as Hk.
  { intros k Hk; unfold fs0; destruct (fs !! dst); [|done]. apply lookup_delete_ne; congruence. }
  split; [|split].
  - intros rest; rewrite move_tree_moved by done; apply Hk.
    intros Ex; rewrite <- Ex, path_strip_app in Hsd; discriminate.
  - intros rest; now apply move_tree_src.
  - intros q Hs Hd'; rewrite move_tree_frame by done; apply Hk.
    exact (path_strip_self_none _ _ Hd').
Qed.

Lemma execute_bootstrap_run p a w :
  let r1 := root_cargo_toml_op p a (w_fs w) in
  let r2 := project_cargo_toml_op p r1.2 in
  let r3 := readme_op p a r2.2 in
  let r4 := semantic_yml_op p a r3.2 in
  let r5 := cargo_lock_op p r4.2 in
  let r6 := project_dir_op p r5.2 in
  execute_bootstrap p a w =
    Some (tt, mkWorld r6.2 (w_stdin w)
      (w_out w ++
       [MTask (TUpdating cargo_toml); outcome_msg r1.1;
        MTask (TUpdating template_cargo_toml); outcome_msg r2.1;
        MTask (TUpdating readme); outcome_msg r3.1;
        MTask (TUpdating semantic_yml); outcome_msg r4.1;
        MTask (TUpdating cargo_lock); outcome_msg r5.1;
        MTask (TRenaming p); outcome_msg r6.1])).
Proof.
  unfold execute_bootstrap.
  erewrite io_bind_some by apply update_step_run.
  erewrite io_bind_some by apply update_step_run.
  erewrite io_bind_some by apply update_step_run.
  erewrite io_bind_some by apply update_step_run.
  erewrite io_bind_some by apply update_step_run.
  unfold update_project_dir; rewrite update_step_run; simpl.
  rewrite <- !app_assoc; reflexivity.
Qed.

Lemma replace_in_file_frame fs f old new q :
  q <> f -> (replace_in_file fs f old new).2 !! q = fs !! q.
Proof.
  intros Hq; unfold replace_in_file.
  destruct (fs_read fs f) as [content|]; [|done]. destruct (contains content old); simpl; [|done].
  destruct (fs_write fs f _) as [fs'|] eqn:E; [|done].
  apply fs_write_ok in E as ->; simpl. now apply lookup_insert_ne.
Qed.

Lemma replace_in_file_keeps fs f old new q :
  (fs !! q = None \/ fs !! q = Some EDir) ->
  (replace_in_file fs f old new).2 !! q = fs !! q.
Proof.
  intros Hq; destruct (decide (q = f)) as [->|Hne]; [|now apply replace_in_file_frame].
  unfold replace_in_file, fs_read.
  destruct Hq as [E|E]; rewrite E; done.
Qed.

Lemma and_then_file_lookup r k q (v : option entry) :
  r.2 !! q = v -> (forall fs1, fs1 !! q = v -> (k fs1).2 !! q = v) ->
  (and_then_file r k).2 !! q = v.
Proof. intros H1 Hk; destruct r as [[u|e] fs1]; simpl in *; [now apply Hk|exact H1]. Qed.

Lemma steps_frame p a fs q :
  (q <> cargo_toml -> (root_cargo_toml_op p a fs).2 !! q = fs !! q) /\
  (q <> template_cargo_toml -> (project_cargo_toml_op p fs).2 !! q = fs !! q) /\
  (q <> readme -> (readme_op p a fs).2 !! q = fs !! q) /\
  (q <> semantic_yml -> (semantic_yml_op p a fs).2 !! q = fs !! q) /\
  (q <> cargo_lock -> (cargo_lock_op p fs).2 !! q = fs !! q).
Proof.
  unfold root_cargo_toml_op, project_cargo_toml_op, readme_op, semantic_yml_op, cargo_lock_op.
  repeat split; intros Hq;
    try (apply and_then_file_lookup;
         [|intros fs1 E; rewrite <- E]);
    apply replace_in_file_frame; assumption.
Qed.

Lemma steps_keep p a fs q :
  (fs !! q = None \/ fs !! q = Some EDir) ->
  (root_cargo_toml_op p a fs).2 !! q = fs !! q /\
  (project_cargo_toml_op p fs).2 !! q = fs !! q /\
  (readme_op p a fs).2 !! q = fs !! q /\
  (semantic_yml_op p a fs).2 !! q = fs !! q /\
  (cargo_lock_op p fs).2 !! q = fs !! q.
Proof.
  intros H.
  unfold root_cargo_toml_op, project_cargo_toml_op, readme_op, semantic_yml_op, cargo_lock_op.
  repeat split;
    try (apply and_then_file_lookup;
         [|intros fs1 E; rewrite <- E; apply replace_in_file_keeps; rewrite E; exact H]);
    apply replace_in_file_keeps; exact H.
Qed.

Lemma path_strip_one (x y : text) : x <> y -> path_strip [x] [y] = None.
Proof. intros H; simpl; now rewrite decide_False. Qed.

(** main.rs [update_project_dir] on a target that is absent or an empty
    directory. *)
(** X4: when [template] is a directory and the project name names no entry or an empty directory, main.rs [update_project_dir] prints the task and [OK], moves the whole [template] tree under the project name, removes [template], and leaves every other path alone. *)
Theorem update_project_dir_moves_template (p : text) (w : world) :
  w_fs w !! [str "template"] = Some EDir ->
  p <> str "template" ->
  (w_fs w !! [p] = None \/ w_fs w !! [p] = Some EDir) ->
  has_children (w_fs w) [p] = false ->
  exists fs',
    update_project_dir p w =
      Some (tt, mkWorld fs' (w_stdin w) (w_out w ++ [MTask (TRenaming p); MOk])) /\
    (forall rest, fs' !! (p :: rest) = w_fs w !! (str "template" :: rest)) /\
    (forall rest, fs' !! (str "template" :: rest) = None) /\
    (forall q, path_strip [str "template"] q = None -> path_strip [p] q = None ->
               fs' !! q = w_fs w !! q).
Proof.
  intros Ht Hp Hd Hc.
  destruct (fs_rename_dir (w_fs w) [str "template"] [p] Ht
              (path_strip_one _ _ (not_eq_sym Hp)) Hd Hc) as (fs' & E & H1 & H2 & H3).
  exists fs'; split; [|split; [exact H1|split; [exact H2|exact H3]]].
  unfold update_project_dir; rewrite update_step_run.
  unfold project_dir_op; rewrite E; reflexivity.
Qed.

Lemma update_project_dir_moves_template_witness :
  demo_workspace !! [str "template"] = Some EDir /\ str "demo" <> str "template" /\
  (demo_workspace !! [str "demo"] = None \/ demo_workspace !! [str "demo"] = Some EDir) /\
  has_children demo_workspace [str "demo"] = false /\
  exists fs',
    update_project_dir (str "demo") (mkWorld demo_workspace [] []) =
      Some (tt, mkWorld fs' [] ([] ++ [MTask (TRenaming (str "demo")); MOk])) /\
    (forall rest, fs' !! (str "demo" :: rest) = demo_workspace !! (str "template" :: rest)) /\
    (forall rest, fs' !! (str "template" :: rest) = None) /\
    (forall q, path_strip [str "template"] q = None -> path_strip [str "demo"] q = None ->
               fs' !! q = demo_workspace !! q).
Proof.
  split; [vm_compute; reflexivity|]. split; [discriminate|].
  split; [right; vm_compute; reflexivity|]. split; [vm_compute; reflexivity|].
  apply (update_project_dir_moves_template (str "demo") (mkWorld demo_workspace [] []));
    [vm_compute; reflexivity|discriminate|right; vm_compute; reflexivity|vm_compute; reflexivity].
Defined.


(** Frame of the whole run. *)
(** X6: [execute_bootstrap] always runs to its end, never reads input, and touches no path other than the four edited files, the [template] tree and the tree under the project name. *)
Theorem execute_bootstrap_frame (p a : text) (w : world) (q : path) :
  q <> cargo_toml -> q <> readme -> q <> semantic_yml -> q <> cargo_lock ->
  path_strip [str "template"] q = None -> path_strip [p] q = None ->
  exists w', execute_bootstrap p a w = Some (tt, w') /\
             w_fs w' !! q = w_fs w !! q /\ w_stdin w' = w_stdin w.
Proof.
  intros Hq1 Hq3 Hq4 Hq5 Ht Hp.
  assert (q <> template_cargo_toml) as Hq2.
  { intros ->; vm_compute in Ht; discriminate. }
  eexists; split; [apply execute_bootstrap_run|]; simpl; split; [|done].
  destruct (steps_frame p a (w_fs w) q) as (E1 & _).
  destruct (steps_frame p a (root_cargo_toml_op p a (w_fs w)).2 q) as (_ & E2 & _).
  set (fs2 := (project_cargo_toml_op p (root_cargo_toml_op p a (w_fs w)).2).2) in *.
  destruct (steps_frame p a fs2 q) as (_ & _ & E3 & _).
  set (fs3 := (readme_op p a fs2).2) in *.
  destruct (steps_frame p a fs3 q) as (_ & _ & _ & E4 & _).
  set (fs4 := (semantic_yml_op p a fs3).2) in *.
  destruct (steps_frame p a fs4 q) as (_ & _ & _ & _ & E5).
  set (fs5 := (cargo_lock_op p fs4).2) in *.
  unfold project_dir_op.
  destruct (fs_rename fs5 [str "template"] [p]) as [fs6|e] eqn:E6; simpl.
  - rewrite (fs_rename_frame _ _ _ _ _ E6 Ht Hp).
    rewrite E5, E4, E3, E2, E1 by assumption; reflexivity.
  - rewrite E5, E4, E3, E2, E1 by assumption; reflexivity.
Qed.

(** X7: after [execute_bootstrap], a writable [template/Cargo.toml] with content [c] is found as [<project>/Cargo.toml] with every [template] replaced by the project name, the [template] tree is gone, and the last line printed is [OK]. *)
Theorem execute_bootstrap_new_manifest (p a c : text) (w : world) :
  w_fs w !! template_cargo_toml = Some (EFile true c) ->
  w_fs w !! [str "template"] = Some EDir ->
  p <> str "template" ->
  (w_fs w !! [p] = None \/ w_fs w !! [p] = Some EDir) ->
  has_children (w_fs w) [p] = false ->
  exists w', execute_bootstrap p a w = Some (tt, w') /\
    w_fs w' !! [p; str "Cargo.toml"] = Some (EFile true (str_replace c (str "template") p)) /\
    (forall rest, w_fs w' !! (str "template" :: rest) = None) /\
    last (w_out w') = Some MOk.
Proof.
  intros Hc Ht Hp Hd Hch.
  set (fs1 := (root_cargo_toml_op p a (w_fs w)).2).
  set (fs2 := (project_cargo_toml_op p fs1).2).
  set (fs3 := (readme_op p a fs2).2).
  set (fs4 := (semantic_yml_op p a fs3).2).
  set (fs5 := (cargo_lock_op p fs4).2).
  assert (forall q, (w_fs w !! q = None \/ w_fs w !! q = Some EDir) -> fs5 !! q = w_fs w !! q)
    as Hkeep.
  { intros q Hq.
    assert (fs1 !! q = w_fs w !! q) as E1 by apply (steps_keep p a (w_fs w) q Hq).
    assert (fs2 !! q = w_fs w !! q) as E2.
    { rewrite <- E1; apply (steps_keep p a fs1 q); now rewrite E1. }
    assert (fs3 !! q = w_fs w !! q) as E3.
    { rewrite <- E2; apply (steps_keep p a fs2 q); now rewrite E2. }
    assert (fs4 !! q = w_fs w !! q) as E4.
    { rewrite <- E3; apply (steps_keep p a fs3 q); now rewrite E3. }
    rewrite <- E4; apply (steps_keep p a fs4 q); now rewrite E4. }
  assert (fs5 !! template_cargo_toml =
          Some (EFile true (str_replace c (str "template") p))) as Hm.
  { destruct (steps_frame p a (w_fs w) template_cargo_toml) as (E1 & _).
    rewrite <- E1 in Hc by discriminate.
    destruct (replace_in_file_writable fs1 template_cargo_toml c (str "template") p Hc)
      as (fs2' & E2 & H2).
    assert (fs2 = fs2') as <- by (unfold fs2, project_cargo_toml_op; now rewrite E2).
    destruct (steps_frame p a fs2 template_cargo_toml) as (_ & _ & E3 & _).
    destruct (steps_frame p a fs3 template_cargo_toml) as (_ & _ & _ & E4 & _).
    destruct (steps_frame p a fs4 template_cargo_toml) as (_ & _ & _ & _ & E5).
    unfold fs5; rewrite E5 by discriminate; unfold fs4; rewrite E4 by discriminate.
    unfold fs3; rewrite E3 by discriminate; exact H2. }
  assert (fs5 !! [str "template"] = Some EDir) as Ht5 by (rewrite Hkeep; auto).
  assert (fs5 !! [p] = None \/ fs5 !! [p] = Some EDir) as Hd5
    by (rewrite Hkeep; auto).
  assert (has_children fs5 [p] = false) as Hch5.
  { apply has_children_false; intros r Hr; rewrite Hkeep; [|left];
      apply (proj1 (has_children_false (w_fs w) [p]) Hch r Hr). }
  destruct (fs_rename_dir fs5 [str "template"] [p] Ht5
              (path_strip_one _ _ (not_eq_sym Hp)) Hd5 Hch5) as (fs6 & E6 & H1 & H2 & _).
  eexists; split; [apply execute_bootstrap_run|]; simpl.
  fold fs1 fs2 fs3 fs4 fs5.
  unfold project_dir_op; rewrite E6; simpl.
  split; [exact (eq_trans (H1 [str "Cargo.toml"]) Hm)|].
  split; [exact H2|].
  rewrite last_app; reflexivity.
Qed.

(** X3: once both inputs are accepted and the confirmation reads yes, [bootstrap_project] prints the preview, the prompt and the start line, runs [execute_bootstrap] on the rest of the input, and then prints the completion message. *)
Theorem bootstrap_confirmed (to_lowercase : text -> text) (pn an : option text)
    (w w1 : world) (p a : text) :
  check_project_root (w_fs w) = Ok tt ->
  prepare_inputs pn an (mkWorld (w_fs w) (w_stdin w) (w_out w ++ [MTitle])) =
    Some ((p, a), w1) ->
  is_yes (to_lowercase (trim (next_line (w_stdin w1)))) = true ->
  exists w3,
    execute_bootstrap p a
      (mkWorld (w_fs w) (drop 1 (w_stdin w1))
         (w_out w1 ++ [MPreview p a; MConfirmPrompt; MStarting])) = Some (tt, w3) /\
    bootstrap_project to_lowercase pn an w =
      Some (tt, mkWorld (w_fs w3) (w_stdin w3) (w_out w3 ++ [MComplete p])).
Proof.
  intros Hc Hp Hy.
  pose proof (prepare_inputs_fs _ _ _ _ _ Hp) as Hfs; simpl in Hfs.
  eexists; split; [apply execute_bootstrap_run|].
  unfold bootstrap_project.
  rewrite (io_bind_some get_fs _ w (w_fs w) w) by reflexivity.
  rewrite Hc.
  rewrite (io_bind_some (print MTitle) _ w tt
             (mkWorld (w_fs w) (w_stdin w) (w_out w ++ [MTitle]))) by reflexivity.
  rewrite (io_bind_some _ _ _ _ _ Hp); simpl.
  unfold preview_and_confirm, confirm.
  unfold mbind at 1 2 3 4 5 6, io_bind at 1 2 3 4 5 6.
  unfold print at 1 2, read_line.
  unfold next_line in Hy.
  destruct w1 as [fs1 [|l r] out1]; simpl in *; subst fs1; rewrite Hy;
    unfold mbind, io_bind, print, mret, io_ret; simpl;
    rewrite execute_bootstrap_run; simpl; rewrite <- !app_assoc; reflexivity.
Qed.

Lemma get_valid_input_fuel_S n prompt validator w :
  get_valid_input_fuel (S n) prompt validator w =
  match validator (trim (next_line (w_stdin w))) with
  | Ok v => Some (v, mkWorld (w_fs w) (drop 1 (w_stdin w)) (w_out w ++ [MPrompt prompt]))
  | Err e => get_valid_input_fuel n prompt validator
               (mkWorld (w_fs w) (drop 1 (w_stdin w)) (w_out w ++ [MPrompt prompt; MInputError e]))
  end.
Proof.
  simpl; unfold prompt_input, mbind, io_bind, print, read_line, mret, io_ret; simpl.
  destruct (w_stdin w) as [|l r]; simpl;
    destruct (validator _); simpl; rewrite ?drop_0; try reflexivity;
    rewrite <- app_assoc; reflexivity.
Qed.

Lemma get_valid_input_fuel_eof prompt validator e :
  validator (trim []) = Err e ->
  forall n w, w_stdin w = [] -> get_valid_input_fuel n prompt validator w = None.
Proof.
  intros He n; induction n as [|n IH]; intros w Hw; [done|].
  rewrite get_valid_input_fuel_S, Hw; cbn -[get_valid_input_fuel trim]; rewrite He. apply IH; done.
Qed.

Lemma get_valid_input_fuel_stable prompt validator l :
  forall w n, w_stdin w = l -> (length l < n)%nat ->
  get_valid_input_fuel n prompt validator w =
  get_valid_input_fuel (S (length l)) prompt validator w.
Proof.
  induction l as [|x l IH]; intros w [|n] Hw Hn; simpl in Hn; try lia;
    rewrite !get_valid_input_fuel_S, Hw; cbn -[get_valid_input_fuel trim].
  - destruct (validator (trim [])) as [v|e] eqn:He; [done|].
    rewrite (get_valid_input_fuel_eof _ _ e He n); done.
  - destruct (validator (trim (x ++ [10]))) as [v|e]; [done|].
    apply IH; simpl; [done|lia].
Qed.

Lemma get_valid_input_fuel_none prompt validator l :
  forall w, w_stdin w = l ->
  get_valid_input_fuel (S (length l)) prompt validator w = None <->
  Forall (fun l => exists e, validator (trim (l ++ [10])) = Err e) l /\
  exists e, validator (trim []) = Err e.
Proof.
  induction l as [|x l IH]; intros w Hw; rewrite get_valid_input_fuel_S, Hw; cbn -[get_valid_input_fuel trim].
  - destruct (validator (trim [])) as [v|e]; simpl.
    + split; [discriminate|intros (_ & e & [=])].
    + split; [eauto|done].
  - destruct (validator (trim (x ++ [10]))) as [v|e] eqn:Hx.
    + split; [discriminate|]. intros (Hf & _); inversion Hf as [|? ? (e & He) _]; congruence.
    + rewrite IH by done. split.
      * intros (Hf & Hn); split; [constructor; eauto|exact Hn].
      * intros (Hf & Hn); split; [inversion Hf; done|exact Hn].
Qed.

(** X2: [get_valid_input] gives up (the model's [None], the process panicking at end of input or looping) exactly when the validator rejects every remaining line and the empty input at end of file; any fuel above the number of remaining lines gives the same result. *)
Theorem get_valid_input_loops (prompt : string) (validator : text -> result text input_error)
    (w : world) :
  (get_valid_input prompt validator w = None <->
   Forall (fun l => exists e, validator (trim (l ++ [10])) = Err e) (w_stdin w) /\
   exists e, validator (trim []) = Err e) /\
  (forall n, (length (w_stdin w) < n)%nat ->
     get_valid_input_fuel n prompt validator w = get_valid_input prompt validator w).
Proof.
  split.
  - apply get_valid_input_fuel_none; reflexivity.
  - intros n Hn; apply get_valid_input_fuel_stable; done.
Qed.

(** X1: the prompt loop of [get_valid_input] returns the value of the first line the validator accepts; every line before it is rejected, and for each one the prompt and the ERROR line are printed before the next prompt; the lines after it stay unread. *)
Theorem get_valid_input_first_accepted (prompt : string)
    (validator : text -> result text input_error) (w : world)
    (bad : list text) (good : text) (rest : list text) (v : text) :
  w_stdin w = bad ++ good :: rest ->
  Forall (fun l => exists e, validator (trim (l ++ [10])) = Err e) bad ->
  validator (trim (good ++ [10])) = Ok v ->
  exists errs,
    Forall2 (fun l e => validator (trim (l ++ [10])) = Err e) bad errs /\
    get_valid_input prompt validator w =
      Some (v, mkWorld (w_fs w) rest
                 (w_out w ++ flat_map (fun e => [MPrompt prompt; MInputError e]) errs ++
                  [MPrompt prompt])).
Proof.
  intros Hw Hbad Hgood; unfold get_valid_input.
  revert w Hw; induction Hbad as [|l bad (e & He) Hbad IH]; intros w Hw.
  - exists []; split; [constructor|].
    rewrite get_valid_input_fuel_S, Hw; cbn -[get_valid_input_fuel trim]; rewrite Hgood; reflexivity.
  - rewrite get_valid_input_fuel_S, Hw; cbn -[get_valid_input_fuel trim]; rewrite He.
    destruct (IH (mkWorld (w_fs w) (bad ++ good :: rest)
                    (w_out w ++ [MPrompt prompt; MInputError e])) eq_refl)
      as (errs & Herrs & E).
    exists (e :: errs); split; [constructor; done|].
    cbn -[get_valid_input_fuel trim] in E; rewrite drop_0, E.
    cbn -[trim]; rewrite <- app_assoc; reflexivity.
Qed.

(** X9: [build] and [test] each run exactly one cargo command (with [--locked] or [-- --nocapture] appended on request), and they succeed exactly when that command exits successfully; without cargo they fail and run nothing. *)
Theorem build_test_single_command (exit_ok : cmd -> bool) (inst : list string) (locked no_capture : bool) :
  let bc := mkCmd "cargo" (["build"; "--workspace"; "--all-features"; "--tests"; "--examples";
                            "--benches"; "--bins"] ++ if locked then ["--locked"] else []) in
  let tc := mkCmd "cargo" (["test"; "--workspace"] ++
                           if no_capture then ["--"; "--nocapture"] else []) in
  build_run exit_ok locked (mkLint inst []) =
    (if mem "cargo" inst then ((if exit_ok bc then Some tt else None), mkLint inst [bc])
     else (None, mkLint inst [])) /\
  test_run exit_ok no_capture (mkLint inst []) =
    (if mem "cargo" inst then ((if exit_ok tc then Some tt else None), mkLint inst [tc])
     else (None, mkLint inst [])).
Proof.
  cbv zeta; unfold build_run, test_run, make_build_cmd, make_test_cmd, find_command,
    run_command, mbind, lint_bind, mret, lint_ret, with_args; simpl.
  destruct (mem "cargo" inst); [|done].
  destruct locked, no_capture; simpl; split; match goal with |- context [exit_ok ?c] => destruct (exit_ok c) end; reflexivity.
Qed.

(** X8: with every command succeeding, [lint] runs clippy, then rustfmt, then installs each missing tool with [cargo install] just before its first use (taplo, typos, hawkeye) and runs it; without cargo it runs nothing. *)
Theorem lint_installs_missing (fix_ : bool) (inst : list string) :
  let missing bin crate := if mem bin inst then [] else [install_cmd crate] in
  lint_run (fun _ => true) fix_ (mkLint inst []) =
  if mem "cargo" inst then
    match lint_checks fix_ with
    | [clippy; fmt; taplo; typos; hawkeye] =>
        (Some tt,
         mkLint ((if mem "hawkeye" inst then [] else ["hawkeye"]) ++
                 (if mem "typos" inst then [] else ["typos"]) ++
                 (if mem "taplo" inst then [] else ["taplo"]) ++ inst)
           ([clippy; fmt] ++ missing "taplo" "taplo-cli" ++ [taplo] ++
            missing "typos" "typos-cli" ++ [typos] ++
            missing "hawkeye" "hawkeye" ++ [hawkeye]))
    | _ => (None, mkLint inst [])
    end
  else (None, mkLint inst []).
Proof.
  cbv zeta.
  cbv delta [lint_run make_clippy_cmd make_format_cmd make_taplo_cmd make_typos_cmd
             make_hawkeye_cmd ensure_installed find_command run_command installed_bin
             mbind lint_bind mret lint_ret with_args] beta iota zeta.
  destruct (mem "cargo" inst) eqn:Hc; [|simpl; rewrite Hc; reflexivity].
  destruct fix_, (mem "taplo" inst) eqn:Ht, (mem "typos" inst) eqn:Hy,
    (mem "hawkeye" inst) eqn:Hh;
    repeat progress (simpl; rewrite ?Hc, ?Ht, ?Hy, ?Hh); reflexivity.
Qed.

(** X10: [remove_bootstrap_file] deletes a regular file and only it, a second run then prints that it is already deleted and changes nothing, and it panics exactly when the path is a directory. *)
Theorem remove_bootstrap_file_idempotent (fs : fsys) (f : path) :
  (forall wr c, fs !! f = Some (EFile wr c) ->
     exists fs', remove_bootstrap_file fs f = Some ([MDeletingBootstrap], fs') /\
       fs' !! f = None /\ (forall q, q <> f -> fs' !! q = fs !! q) /\
       remove_bootstrap_file fs' f = Some ([MAlreadyDeleted], fs')) /\
  (fs !! f = None -> remove_bootstrap_file fs f = Some ([MAlreadyDeleted], fs)) /\
  (fs !! f = Some EDir -> remove_bootstrap_file fs f = None).
Proof.
  unfold remove_bootstrap_file, fs_remove_file, path_exists.
  split; [|split]; intros.
  - rewrite H. eexists; split; [reflexivity|].
    assert (delete f fs !! f = None) as Hd by apply lookup_delete_eq.
    split; [exact Hd|]; split; [intros q Hq; now apply lookup_delete_ne|].
    now rewrite Hd.
  - now rewrite H.
  - now rewrite H.
Qed.

Lemma table_get_set_eq t k it :
  table_get t k <> None -> (match it with INone => False | _ => True end) ->
  table_get (table_set t k it) k = Some it.
Proof.
  intros H Hit; induction t as [|[k' i] t IH]; simpl in *; [congruence|].
  destruct (String.eqb_spec k' k) as [->|Hk]; simpl.
  - rewrite String.eqb_refl; destruct it; done.
  - apply String.eqb_neq in Hk; rewrite Hk; apply IH.
    destruct (String.eqb k' k); [congruence|exact H].
Qed.

Lemma table_get_set_ne t k k' it :
  k <> k' -> table_get (table_set t k it) k' = table_get t k'.
Proof.
  intros Hne; induction t as [|[k0 i] t IH]; simpl; [done|].
  destruct (String.eqb_spec k0 k) as [->|Hk]; simpl.
  - apply String.eqb_neq in Hne; now rewrite Hne.
  - now rewrite IH.
Qed.

Lemma table_set_same t k it :
  table_get t k = Some it -> table_set t k it = t.
Proof.
  induction t as [|[k0 i] t IH]; simpl; [discriminate|].
  destruct (String.eqb k0 k) eqn:E.
  - apply String.eqb_eq in E as ->. destruct i; intros [= ->]; done.
  - intros H; now rewrite IH.
Qed.

Lemma table_get_remove_ne t k k' :
  k <> k' -> table_get (table_remove t k) k' = table_get t k'.
Proof.
  intros Hne; induction t as [|[k0 i] t IH]; simpl; [done|].
  destruct (String.eqb_spec k0 k) as [->|Hk]; simpl.
  - apply String.eqb_neq in Hne; now rewrite Hne.
  - now rewrite IH.
Qed.

Lemma table_get_none t k : k ∉ t.*1 -> table_get t k = None.
Proof.
  induction t as [|[k0 i] t IH]; simpl; [done|].
  rewrite not_elem_of_cons; intros [Hk Ht].
  destruct (String.eqb_spec k0 k); [congruence|]. now apply IH.
Qed.

Lemma table_remove_nodup t k : NoDup t.*1 -> NoDup (table_remove t k).*1.
Proof.
  induction t as [|[k0 i] t IH]; simpl; [done|].
  rewrite NoDup_cons; intros [Hk Hn].
  destruct (String.eqb k0 k); [exact Hn|]. simpl; rewrite NoDup_cons; split; [|now apply IH].
  intros Hin; apply Hk; clear -Hin.
  induction t as [|[k1 j] t IH]; simpl in *; [done|].
  destruct (String.eqb k1 k); [now right|].
  simpl in Hin; rewrite elem_of_cons in Hin |- *; destruct Hin as [->|Hin]; [now left|right; auto].
Qed.

Lemma table_get_remove_eq t k : NoDup t.*1 -> table_get (table_remove t k) k = None.
Proof.
  induction t as [|[k0 i] t IH]; simpl; [done|].
  rewrite NoDup_cons; intros [Hk Hn].
  destruct (String.eqb_spec k0 k) as [->|Hne].
  - now apply table_get_none.
  - simpl; apply String.eqb_neq in Hne; rewrite Hne; now apply IH.
Qed.

Lemma position_first (f : toml_value -> bool) pre x post :
  Forall (fun v => f v = false) pre -> f x = true ->
  position f (pre ++ x :: post) = Some (length pre).
Proof.
  intros Hpre Hx; induction Hpre as [|y pre Hy _ IH]; simpl; [now rewrite Hx|].
  rewrite Hy, IH; done.
Qed.

Lemma position_none (f : toml_value -> bool) l :
  Forall (fun v => f v = false) l -> position f l = None.
Proof. intros H; induction H as [|y l Hy _ IH]; simpl; [done|]. now rewrite Hy, IH. Qed.

Lemma delete_middle {A} (pre post : list A) x : delete (length pre) (pre ++ x :: post) = pre ++ post.
Proof. induction pre as [|y pre IH]; simpl; [done|]. now rewrite IH. Qed.

(** X11: when [features.default] is an array, [disable_bootstrap_feature] removes only the first ["bootstrap"] entry of it and changes nothing else of the manifest. *)
Theorem disable_bootstrap_feature_first (doc features : list (string * toml_item))
    (pre post : list toml_value) :
  table_get doc "features" = Some (ITable features) ->
  table_get features "default" = Some (IValue (VArray (pre ++ VString "bootstrap" :: post))) ->
  Forall (fun v => v <> VString "bootstrap") pre ->
  exists features',
    disable_bootstrap_feature doc =
      (table_set doc "features" (ITable features'), [MDisablingFeature]) /\
    table_get (table_set doc "features" (ITable features')) "features" = Some (ITable features') /\
    table_get features' "default" = Some (IValue (VArray (pre ++ post))) /\
    (forall k, k <> "default" -> table_get features' k = table_get features k) /\
    (forall k, k <> "features" ->
       table_get (table_set doc "features" (ITable features')) k = table_get doc k).
Proof.
  intros Hf Hd Hpre.
  assert (position (fun feature => bool_decide (as_str feature = Some "bootstrap"))
            (pre ++ VString "bootstrap" :: post) = Some (length pre)) as Hp.
  { apply position_first; [|reflexivity].
    eapply Forall_impl; [exact Hpre|]; simpl; intros v Hv.
    apply bool_decide_eq_false; destruct v; simpl; congruence. }
  eexists; split; [unfold disable_bootstrap_feature; rewrite Hf, Hd, Hp; reflexivity|].
  split; [apply table_get_set_eq; [congruence|done]|].
  split; [rewrite table_get_set_eq by (congruence || done); now rewrite delete_middle|].
  split; intros k Hk; apply table_get_set_ne; congruence.
Qed.

(** X12: without a [features] table, [disable_bootstrap_feature] prints nothing and leaves the manifest unchanged; when [features.default] is an array with no ["bootstrap"] entry, it prints the disabling line and leaves the manifest unchanged. *)
Theorem disable_bootstrap_feature_noop (doc : list (string * toml_item)) :
  ((forall features, table_get doc "features" <> Some (ITable features)) ->
   disable_bootstrap_feature doc = (doc, [])) /\
  (forall features default,
     table_get doc "features" = Some (ITable features) ->
     table_get features "default" = Some (IValue (VArray default)) ->
     Forall (fun v => v <> VString "bootstrap") default ->
     disable_bootstrap_feature doc = (doc, [MDisablingFeature])).
Proof.
  split.
  - intros H; unfold disable_bootstrap_feature.
    destruct (table_get doc "features") as [[| |t|]|] eqn:E; try reflexivity.
    exfalso; exact (H t eq_refl).
  - intros features default Hf Hd Hn; unfold disable_bootstrap_feature; rewrite Hf, Hd.
    rewrite position_none.
    + now rewrite table_set_same.
    + eapply Forall_impl; [exact Hn|]; simpl; intros v Hv.
      apply bool_decide_eq_false; destruct v; simpl; congruence.
Qed.

(** X13: [remove_bootstrap_dependencies] removes the keys [toml_edit], [colored] and [dialoguer] from a [dependencies] table and keeps every other dependency; without that table it does nothing. *)
Theorem remove_bootstrap_dependencies_spec (doc : list (string * toml_item)) :
  ((forall deps, table_get doc "dependencies" <> Some (ITable deps)) ->
   remove_bootstrap_dependencies doc = (doc, [])) /\
  (forall deps, table_get doc "dependencies" = Some (ITable deps) -> NoDup deps.*1 ->
   exists deps',
     remove_bootstrap_dependencies doc =
       (table_set doc "dependencies" (ITable deps'), [MRemovingDeps]) /\
     table_get (table_set doc "dependencies" (ITable deps')) "dependencies" =
       Some (ITable deps') /\
     (forall k, table_get deps' k =
        if decide (k ∈ ["toml_edit"; "colored"; "dialoguer"]) then None
        else table_get deps k) /\
     (forall k, k <> "dependencies" ->
        table_get (table_set doc "dependencies" (ITable deps')) k = table_get doc k)).
Proof.
  split.
  - intros H; unfold remove_bootstrap_dependencies.
    destruct (table_get doc "dependencies") as [[| |t|]|] eqn:E; try reflexivity.
    exfalso; exact (H t eq_refl).
  - intros deps Hd Hn; unfold remove_bootstrap_dependencies; rewrite Hd.
    eexists; split; [reflexivity|].
    split; [apply table_get_set_eq; [congruence|done]|].
    split; [|intros k Hk; apply table_get_set_ne; congruence].
    intros k.
    pose proof (table_remove_nodup _ "toml_edit" Hn) as Hn1.
    pose proof (table_remove_nodup _ "colored" Hn1) as Hn2.
    case_decide as Hin.
    + rewrite !elem_of_cons, elem_of_nil in Hin.
      destruct Hin as [->|[->|[->|[]]]].
      * rewrite table_get_remove_ne, table_get_remove_ne by done.
        now apply table_get_remove_eq.
      * rewrite table_get_remove_ne by done. now apply table_get_remove_eq.
      * now apply table_get_remove_eq.
    + rewrite !elem_of_cons, elem_of_nil in Hin.
      rewrite !table_get_remove_ne by (intros E; rewrite <- E in Hin; tauto). reflexivity.
Qed.

Lemma execute_bootstrap_frame_witness :
  [str "xtask"] <> cargo_toml /\ [str "xtask"] <> readme /\
  [str "xtask"] <> semantic_yml /\ [str "xtask"] <> cargo_lock /\
  path_strip [str "template"] [str "xtask"] = None /\
  path_strip [str "demo"] [str "xtask"] = None /\
  exists w', execute_bootstrap (str "demo") (str "alice") (mkWorld demo_workspace [] []) =
               Some (tt, w') /\
             w_fs w' !! [str "xtask"] = demo_workspace !! [str "xtask"] /\ w_stdin w' = [].
Proof.
  do 4 (split; [discriminate|]).
  split; [vm_compute; reflexivity|]. split; [vm_compute; reflexivity|].
  apply (execute_bootstrap_frame (str "demo") (str "alice") (mkWorld demo_workspace [] [])
           [str "xtask"]); first [discriminate | vm_compute; reflexivity].
Defined.

Lemma execute_bootstrap_new_manifest_witness :
  demo_workspace !! template_cargo_toml = Some (EFile true (str "name=template")) /\
  exists w', execute_bootstrap (str "demo") (str "alice") (mkWorld demo_workspace [] []) =
               Some (tt, w') /\
    w_fs w' !! [str "demo"; str "Cargo.toml"] =
      Some (EFile true (str_replace (str "name=template") (str "template") (str "demo"))) /\
    (forall rest, w_fs w' !! (str "template" :: rest) = None) /\
    last (w_out w') = Some MOk.
Proof.
  split; [vm_compute; reflexivity|].
  apply (execute_bootstrap_new_manifest (str "demo") (str "alice") (str "name=template")
           (mkWorld demo_workspace [] []));
    [vm_compute; reflexivity|vm_compute; reflexivity|discriminate
    |right; vm_compute; reflexivity|vm_compute; reflexivity].
Defined.

Lemma bootstrap_confirmed_witness :
  check_project_root demo_workspace = Ok tt /\
  is_yes (ascii_to_lowercase (trim (next_line [str "Y"]))) = true /\
  exists w3,
    execute_bootstrap (str "demo") (str "alice")
      (mkWorld demo_workspace []
         [MTitle; MPrompt "Enter the new project name"; MPrompt "Enter the GitHub username/org";
          MPreview (str "demo") (str "alice"); MConfirmPrompt; MStarting]) = Some (tt, w3) /\
    bootstrap_project ascii_to_lowercase None None
      (mkWorld demo_workspace [str "demo"; str "alice"; str "Y"] []) =
      Some (tt, mkWorld (w_fs w3) (w_stdin w3) (w_out w3 ++ [MComplete (str "demo")])).
Proof.
  split; [vm_compute; reflexivity|]. split; [vm_compute; reflexivity|].
  apply (bootstrap_confirmed ascii_to_lowercase None None
           (mkWorld demo_workspace [str "demo"; str "alice"; str "Y"] [])
           (mkWorld demo_workspace [str "Y"]
              [MTitle; MPrompt "Enter the new project name"; MPrompt "Enter the GitHub username/org"])
           (str "demo") (str "alice")); vm_compute; reflexivity.
Defined.

Lemma get_valid_input_first_accepted_witness :
  exists errs,
    Forall2 (fun l e => parse_project_name (trim (l ++ [10])) = Err e) [str "1x"] errs /\
    get_valid_input "Enter the new project name" parse_project_name
      (mkWorld ∅ [str "1x"; str "  demo "; str "rest"] []) =
      Some (str "demo", mkWorld ∅ [str "rest"]
              ([] ++ flat_map (fun e => [MPrompt "Enter the new project name"; MInputError e]) errs ++
               [MPrompt "Enter the new project name"])).
Proof.
  apply (get_valid_input_first_accepted "Enter the new project name" parse_project_name
           (mkWorld ∅ [str "1x"; str "  demo "; str "rest"] []) [str "1x"] (str "  demo ")
           [str "rest"] (str "demo")).
  - reflexivity.
  - constructor; [exists (StartsWithDigit 49); vm_compute; reflexivity|constructor].
  - vm_compute; reflexivity.
Defined.

Definition features_doc : list (string * toml_item) :=
  [("package", ITable [("name", IValue (VString "xtask"))]);
   ("features", ITable [("default", IValue (VArray [VString "std"; VString "bootstrap";
                                                    VString "bootstrap"]))])].

Lemma disable_bootstrap_feature_first_witness :
  exists features',
    disable_bootstrap_feature features_doc =
      (table_set features_doc "features" (ITable features'), [MDisablingFeature]) /\
    table_get (table_set features_doc "features" (ITable features')) "features" =
      Some (ITable features') /\
    table_get features' "default" =
      Some (IValue (VArray ([VString "std"] ++ [VString "bootstrap"]))) /\
    (forall k, k <> "default" ->
       table_get features' k =
       table_get [("default", IValue (VArray [VString "std"; VString "bootstrap";
                                             VString "bootstrap"]))] k) /\
    (forall k, k <> "features" ->
       table_get (table_set features_doc "features" (ITable features')) k =
       table_get features_doc k).
Proof.
  apply (disable_bootstrap_feature_first features_doc
           [("default", IValue (VArray [VString "std"; VString "bootstrap"; VString "bootstrap"]))]
           [VString "std"] [VString "bootstrap"]).
  - reflexivity.
  - reflexivity.
  - constructor; [discriminate|constructor].
Defined.
